(** * deno-npm-sync: the sync engine and the pnpm catalog resolver

    A shallow embedding of [packages/deno-npm-sync/src/main.ts] and of the
    catalog resolver module, with the properties of the specification
    stated and settled against it.

    Conventions of the embedding:
    - a JavaScript string is a [string] holding its UTF-8 bytes; every
      delimiter the program looks for is ASCII, so scanning bytes and
      scanning code points find the same positions;
    - [undefined] and [null] are [None];
    - an object used as a map (the dependency sections, the catalogs) is
      a finite map of its own properties; reading a property it does not
      own falls through to [Object.prototype], so a lookup has three
      outcomes: an own value, an inherited member, or nothing;
    - the import map, whose order matters, is the list of its entries in
      the order of [Object.entries];
    - a thrown exception is the left injection of a sum; the file
      system, the console and the working directory make up a world that
      is threaded explicitly;
    - a file holds what the parsers make of its text: two texts with the
      same parsed value are one content, so the layout of a text and the
      order in which it spells keys that [Object.entries] reorders are
      not part of a world;
    - paths are POSIX paths. *)

From Stdlib Require Import Ascii String.
From stdpp Require Import base option list gmap strings.

Local Open Scope char_scope.

(** ** JavaScript string primitives *)

Module Js.

(** [\d] (with or without the [u] flag): the ten ASCII digits. *)
Definition isDigit (c : ascii) : bool :=
  match c with
  | "0" | "1" | "2" | "3" | "4" | "5" | "6" | "7" | "8" | "9" => true
  | _ => false
  end.

Definition charEqb (a b : ascii) : bool := bool_decide (a = b).

(** [s.startsWith(p)], returning what follows the prefix. *)
Fixpoint stripPrefix (p s : string) : option string :=
  match p, s with
  | EmptyString, _ => Some s
  | String a p', String b s' => if charEqb a b then stripPrefix p' s' else None
  | String _ _, EmptyString => None
  end.

Definition startsWith (p s : string) : bool :=
  match stripPrefix p s with Some _ => true | None => false end.

(** [s.split(sep)] for a one-character separator: never the empty list. *)
Fixpoint split (sep : ascii) (s : string) : list string :=
  match s with
  | EmptyString => [EmptyString]
  | String c r =>
      if charEqb c sep then EmptyString :: split sep r
      else match split sep r with
           | h :: t => String c h :: t
           | [] => [String c EmptyString]
           end
  end.

(** [segments.join(sep)]. *)
Fixpoint join (sep : string) (l : list string) : string :=
  match l with
  | [] => EmptyString
  | [x] => x
  | x :: r => x +:+ sep +:+ join sep r
  end.

(** [segments.slice(0, n)] for a non-negative integer [n]. *)
Definition slice0 {A} (n : nat) (l : list A) : list A := take n l.

(** [s.replace(/^\D*/u, '')]: the leading run of non-digits is removed. *)
Fixpoint replaceLeadingNonDigits (s : string) : string :=
  match s with
  | EmptyString => EmptyString
  | String c r => if isDigit c then s else replaceLeadingNonDigits r
  end.

(** The longest prefix whose characters all satisfy [p], and the rest:
    what a greedy character-class repetition consumes first. *)
Fixpoint span (p : ascii -> bool) (s : string) : string * string :=
  match s with
  | EmptyString => (EmptyString, EmptyString)
  | String c r =>
      if p c then let '(a, b) := span p r in (String c a, b)
      else (EmptyString, s)
  end.

(** The property names of [Object.prototype]: what a plain object (one
    made by [JSON.parse] or by the YAML parser) answers for even when it
    has no such property of its own.  All hold functions, but
    [__proto__], an accessor that answers [Object.prototype] itself. *)
Definition objectPrototypeKeys : list string :=
  [ "constructor"; "hasOwnProperty"; "isPrototypeOf"; "propertyIsEnumerable";
    "toLocaleString"; "toString"; "valueOf"; "__proto__";
    "__defineGetter__"; "__defineSetter__"; "__lookupGetter__";
    "__lookupSetter__" ]%string.

Definition inheritedKey (key : string) : bool :=
  bool_decide (key ∈ objectPrototypeKeys).

(** What reading a property finds. *)
Inductive Member (V : Type) :=
  | Undefined                 (* no object, or no such property anywhere *)
  | Own (v : V)               (* a property of the object itself *)
  | Inherited (key : string). (* the member of [Object.prototype] of that name *)

Arguments Undefined {V}.
Arguments Own {V} v.
Arguments Inherited {V} key.

(** [o?.[key]] on an object used as a map.  The object's own property
    wins; a key it lacks is looked up in [Object.prototype]. *)
Definition member {V} (o : option (gmap string V)) (key : string) : Member V :=
  match o with
  | Some m =>
      match m !! key with
      | Some v => Own v
      | None => if inheritedKey key then Inherited key else Undefined
      end
  | None => Undefined
  end.

Definition bytes (l : list nat) : string :=
  string_of_list_ascii (map ascii_of_nat l).

(** The code points that are line terminators: LF, CR, U+2028, U+2029.
    [.] without the [s] flag matches every code point but these. *)
Fixpoint noLineTerminator (s : string) : bool :=
  match s with
  | EmptyString => true
  | String c r =>
      if charEqb c "010" || charEqb c "013" then false
      else if charEqb c "226" then
        match r with
        | String "128" (String d _) =>
            if charEqb d "168" || charEqb d "169" then false
            else noLineTerminator r
        | _ => noLineTerminator r
        end
      else noLineTerminator r
  end.

(** The code points [String.prototype.trim] removes (WhiteSpace and
    LineTerminator of ECMAScript), as UTF-8 byte sequences. *)
Definition whiteSpace : list string :=
  [ bytes [9]; bytes [10]; bytes [11]; bytes [12]; bytes [13]; bytes [32];
    bytes [194; 160];
    bytes [225; 154; 128];
    bytes [226; 128; 128]; bytes [226; 128; 129]; bytes [226; 128; 130];
    bytes [226; 128; 131]; bytes [226; 128; 132]; bytes [226; 128; 133];
    bytes [226; 128; 134]; bytes [226; 128; 135]; bytes [226; 128; 136];
    bytes [226; 128; 137]; bytes [226; 128; 138];
    bytes [226; 128; 168]; bytes [226; 128; 169]; bytes [226; 128; 175];
    bytes [226; 129; 159];
    bytes [227; 128; 128];
    bytes [239; 187; 191] ].

Fixpoint stripAny (table : list string) (s : string) : option string :=
  match table with
  | [] => None
  | w :: table' =>
      match stripPrefix w s with
      | Some r => Some r
      | None => stripAny table' s
      end
  end.

Fixpoint dropWhileAny (fuel : nat) (table : list string) (s : string) : string :=
  match fuel with
  | O => s
  | S fuel' =>
      match stripAny table s with
      | Some r => dropWhileAny fuel' table r
      | None => s
      end
  end.

Definition trimStart (s : string) : string :=
  dropWhileAny (String.length s) whiteSpace s.

Definition trimEnd (s : string) : string :=
  String.rev (dropWhileAny (String.length s) (map String.rev whiteSpace) (String.rev s)).

Definition trim (s : string) : string := trimEnd (trimStart s).

(** [s.slice(n)] for [0 <= n]. *)
Fixpoint sliceFrom (n : nat) (s : string) : string :=
  match n, s with
  | O, _ => s
  | S n', String _ r => sliceFrom n' r
  | S _, EmptyString => EmptyString
  end.

End Js.

(** ** POSIX paths ([node:path])

    A resolved path is the list of its segments below the filesystem
    root; the root directory itself is the empty list. *)

Module Path.

Definition root : list string := [].

(** One step of normalisation: empty and [.] segments are dropped,
    [..] removes the last segment (and stays at the root). *)
Definition step (acc : list string) (seg : string) : list string :=
  if bool_decide (seg = EmptyString) || bool_decide (seg = ".")%string then acc
  else if bool_decide (seg = "..")%string then removelast acc
  else acc ++ [seg].

Definition isAbsolute (p : string) : bool := Js.startsWith "/" p.

(** [path.resolve(p)] in a process whose working directory is [cwd]. *)
Definition resolve (cwd : list string) (p : string) : list string :=
  fold_left step (Js.split "/" p) (if isAbsolute p then root else cwd).

(** [path.join(a, b)] up to the normalisation that [resolve] performs
    when the joined path is handed to the file system. *)
Definition join (a b : string) : string :=
  if bool_decide (a = EmptyString) then b
  else if bool_decide (b = EmptyString) then a
  else a +:+ "/" +:+ b.

(** [path.join(dir, name)] for a resolved [dir] and a plain file name. *)
Definition child (dir : list string) (name : string) : list string :=
  dir ++ [name].

(** [path.dirname] of a resolved path; the root is its own parent. *)
Definition dirname (p : list string) : list string := removelast p.

(** The textual form of a resolved path. *)
Definition render (p : list string) : string :=
  "/" +:+ Js.join "/" p.

End Path.

(** ** Documents *)

(** A member of the import map: a string, or any other JSON value (kept
    as its text), which the engine skips. *)
Inductive JsonValue :=
  | JsonString (s : string)
  | JsonOther (text : string).

(** The members of a parsed JSON object that the program reads.  The
    interfaces [PackageJson] and [DenoJson] of main.ts are two views of
    it: the first looks at the two dependency sections, the second at
    [imports].  [imports] lists the properties in the order of
    [Object.entries]. *)
Record JsonObject := {
  dependencies : option (gmap string string);
  devDependencies : option (gmap string string);
  imports : option (list (string * JsonValue))
}.

Abbreviation PackageJson := JsonObject.
Abbreviation DenoJson := JsonObject.

Record PnpmWorkspaceYaml := {
  catalog : option (gmap string string);
  catalogs : option (gmap string (gmap string string))
}.

(** What the catalog resolver hands back when it is not [null].  Its
    signature promises a string; a lookup that falls through to
    [Object.prototype] hands back what it finds there instead.
    [Builtin path] is the built-in value that reading the properties of
    [path], one after the other, on an empty object yields:
    [Builtin ["constructor"]] is the function [Object]. *)
Inductive Resolved :=
  | Range (s : string)
  | Builtin (path : list string).

#[global] Instance JsonValue_eq_dec : EqDecision JsonValue.
Proof. solve_decision. Defined.

(** ** The file system, the console and exceptions *)

(** The content of a file is what a parser makes of its text: a text
    stands for the object it parses to, with [imports] in the order of
    [Object.entries].  Three kinds of text are told apart:
    - [Junk], which neither [JSON.parse] nor the YAML parser accepts;
    - [JsonText o], a JSON text whose value has the members [o] and no
      [catalog] or [catalogs]; a JSON text whose value has none of the
      members of [JsonObject] at all (an array, a number, a string)
      reads as the object without members;
    - [YamlText y], a workspace document written as YAML proper, which
      [JSON.parse] rejects.
    The JSON text [null], on which every member access throws, is not
    among the contents. *)
Inductive Content :=
  | Junk
  | JsonText (o : JsonObject)
  | YamlText (y : PnpmWorkspaceYaml).

Inductive Node :=
  | Directory
  | File (c : Content).

Record World := {
  cwd : list string;
  nodes : gmap (list string) Node;
  writes : list (list string * Content);   (* every writeFileSync so far *)
  console : list string                   (* every console.log so far *)
}.

Inductive Exception :=
  | Error (message : string)
  | SyntaxError
  | TypeError
  | SystemError (code : string).

Definition IO (A : Type) : Type := World -> (Exception + A) * World.

#[global] Instance IO_ret : MRet IO := fun A x w => (inr x, w).
#[global] Instance IO_bind : MBind IO := fun A B f m w =>
  match m w with
  | (inl e, w') => (inl e, w')
  | (inr x, w') => f x w'
  end.

Module Io.

Definition throw {A} (e : Exception) : IO A := fun w => (inl e, w).

(** [try { body } catch { handler }]. *)
Definition tryCatch {A} (body : IO A) (handler : Exception -> IO A) : IO A :=
  fun w => match body w with
           | (inl e, w') => handler e w'
           | (inr x, w') => (inr x, w')
           end.

(** [path.resolve] reads the working directory of the process. *)
Definition pathResolve (p : string) : IO (list string) :=
  fun w => (inr (Path.resolve (cwd w) p), w).

Definition existsSync (p : list string) : IO bool :=
  fun w => (inr (bool_decide (is_Some (nodes w !! p))), w).

Definition readFileSync (p : list string) : IO Content :=
  fun w => match nodes w !! p with
           | Some (File c) => (inr c, w)
           | Some Directory => (inl (SystemError "EISDIR"), w)
           | None => (inl (SystemError "ENOENT"), w)
           end.

Definition writeFileSync (p : list string) (c : Content) : IO unit :=
  fun w => (inr tt, {| cwd := cwd w;
                       nodes := <[p := File c]> (nodes w);
                       writes := writes w ++ [(p, c)];
                       console := console w |}).

Definition consoleLog (line : string) : IO unit :=
  fun w => (inr tt, {| cwd := cwd w;
                       nodes := nodes w;
                       writes := writes w;
                       console := console w ++ [line] |}).

(** [JSON.parse] of a file's text, cast to the object type. *)
Definition JSON_parse (c : Content) : IO JsonObject :=
  match c with
  | JsonText o => mret o
  | _ => throw SyntaxError
  end.

(** [parse] of the [yaml] package.  A JSON text is a YAML text too; the
    object it yields has none of the members a workspace document is
    read for. *)
Definition YAML_parse (c : Content) : IO PnpmWorkspaceYaml :=
  match c with
  | YamlText y => mret y
  | JsonText _ => mret {| catalog := None; catalogs := None |}
  | Junk => throw SyntaxError
  end.

(** [Object.entries(o)]: a TypeError on [undefined]. *)
Definition Object_entries {A} (o : option (list (string * A))) : IO (list (string * A)) :=
  match o with
  | Some l => mret l
  | None => throw TypeError
  end.

Fixpoint forEach {A} (l : list A) (f : A -> IO unit) : IO unit :=
  match l with
  | [] => mret tt
  | x :: r => f x ;; forEach r f
  end.

(** A computation that touches no part of the world: its value, or the
    exception it throws. *)
Definition result {A} (r : Exception + A) : IO A := fun w => (r, w).

(** [for (const x of l) { st = body(st, x) }], where the body may throw. *)
Fixpoint forOf {St A} (body : St -> A -> Exception + St) (l : list A) (st : St)
    : Exception + St :=
  match l with
  | [] => inr st
  | x :: r =>
      match body st x with
      | inl e => inl e
      | inr st' => forOf body r st'
      end
  end.

End Io.

(** ** main.ts *)

Module Main.

Import Js Io.

Inductive Registry := Npm | Jsr.

Inductive VersionPrecision := Auto | Major | Minor | Full.

#[global] Instance VersionPrecision_eq_dec : EqDecision VersionPrecision.
Proof. solve_decision. Defined.

Record SyncOptions := {
  denoJsonPath : string;
  packageJsonPath : string;
  silent : option bool;
  versionPrecision : option VersionPrecision
}.

Module Update.
Record t := mk { name : string; oldVersion : string; newVersion : string }.
End Update.

Record SyncResult := {
  hasUpdates : bool;
  updates : list Update.t
}.

Definition MAJOR_MINOR_PRECISION : nat := 2.

Definition detectVersionPrecision (version : string) : nat :=
  let segments := split "." version in
  length segments.

Definition formatVersion (version : string) (precision : nat) : string :=
  let segments := split "." version in
  join "." (slice0 precision segments).

(** The named groups of a successful match; [subpath] is [None] when
    the optional group did not take part. *)
Record Groups := {
  groupName : string;
  groupVersion : string;
  groupSubpath : option string
}.

(** [\d+ (?: \. \d+ )*] at the start of [s]: the longest prefix of that
    shape and what follows it.  What follows the version in both
    patterns accepts only the end of the string or a [/], so no
    shorter repetition can succeed where the longest fails. *)
Fixpoint scanVersion (s : string) : option (string * string) :=
  match s with
  | EmptyString => None
  | String c r =>
      if isDigit c then
        match r with
        | EmptyString => Some (String c EmptyString, EmptyString)
        | String d r' =>
            if isDigit d then
              match scanVersion r with
              | Some (v, rest) => Some (String c v, rest)
              | None => Some (String c EmptyString, r)
              end
            else if charEqb d "." then
              match scanVersion r' with
              | Some (v, rest) => Some (String c (String "." v), rest)
              | None => Some (String c EmptyString, r)
              end
            else Some (String c EmptyString, r)
        end
      else None
  end.

(** [(?<subpath> \/ .* )? $] on what follows the version. *)
Definition matchSubpath (rest : string) : option (option string) :=
  match rest with
  | EmptyString => Some None
  | String c r =>
      if charEqb c "/" && noLineTerminator r then Some (Some rest) else None
  end.

(** [@ (?<version> ... ) (?<subpath> ... )? $], the tail the two patterns share. *)
Definition matchAtVersion (name : string) (s : string) : option Groups :=
  match s with
  | String "@" r =>
      match scanVersion r with
      | Some (version, rest) =>
          match matchSubpath rest with
          | Some subpath =>
              Some {| groupName := name; groupVersion := version; groupSubpath := subpath |}
          | None => None
          end
      | None => None
      end
  | _ => None
  end.

Definition notAt (c : ascii) : bool := negb (charEqb c "@").
Definition notSlashAt (c : ascii) : bool := negb (charEqb c "/") && negb (charEqb c "@").

(** The pattern, token by token:
    [^npm: (?<name> [^@]+ ) @ (?<version> \d+ (?: \. \d+ )* ) (?<subpath> \/ .* )? $] *)
Definition npmPattern (s : string) : option Groups :=
  match stripPrefix "npm:" s with
  | Some r =>
      let '(name, r1) := span notAt r in
      if bool_decide (name = EmptyString) then None
      else matchAtVersion name r1
  | None => None
  end.

(** The pattern, token by token:
    [^jsr: (?<name> @ [^/@]+ \/ [^@/]+ ) @ (?<version> \d+ (?: \. \d+ )* ) (?<subpath> \/ .* )? $] *)
Definition jsrPattern (s : string) : option Groups :=
  match stripPrefix "jsr:@" s with
  | Some r =>
      let '(scope, r1) := span notSlashAt r in
      if bool_decide (scope = EmptyString) then None
      else match r1 with
           | String "/" r2 =>
               let '(pkg, r3) := span notSlashAt r2 in
               if bool_decide (pkg = EmptyString) then None
               else matchAtVersion ("@" +:+ scope +:+ "/" +:+ pkg) r3
           | _ => None
           end
  | None => None
  end.

Definition registryPrefix (registry : Registry) : string :=
  match registry with Npm => "npm" | Jsr => "jsr" end.

(** [section?.[name]?.replace(/^\D*/u, '')].  A member inherited from
    [Object.prototype] is a function or an object, not [undefined], so
    the second [?.] lets it through, and it has no [replace] to call:
    a TypeError. *)
Definition declared (section : option (gmap string string)) (name : string)
    : Exception + option string :=
  match member section name with
  | Undefined => inr None
  | Own range => inr (Some (replaceLeadingNonDigits range))
  | Inherited _ => inl TypeError
  end.

(** [a ?? b]: [b] is evaluated only when [a] is [undefined] or [null]. *)
Definition nullish {A} (a b : Exception + option A) : Exception + option A :=
  match a with
  | inl e => inl e
  | inr (Some x) => inr (Some x)
  | inr None => b
  end.

Record ImportResult := {
  newImport : string;
  name : string;
  oldVersion : string;
  newVersion : string
}.

Definition processImport (denoImport : string) (registry : Registry)
    (pkg : PackageJson) (versionPrecision : VersionPrecision)
    : Exception + option ImportResult :=
  let pattern := match registry with Npm => npmPattern | Jsr => jsrPattern end in
  match pattern denoImport with
  | None => inr None
  | Some groups =>
      let name := groupName groups in
      let version := groupVersion groups in
      let subpath := groupSubpath groups in
      let pkgVersion :=
        nullish (declared (devDependencies pkg) name) (declared (dependencies pkg) name) in
      match pkgVersion with
      | inl e => inl e
      | inr None => inr None
      | inr (Some pkgVersion) =>
          if bool_decide (pkgVersion = version) then inr None
          else
            let finalVersion :=
              match versionPrecision with
              | Major => default pkgVersion (head (split "." pkgVersion))
              | Minor => formatVersion pkgVersion MAJOR_MINOR_PRECISION
              | Full => pkgVersion
              | Auto =>
                  let currentPrecision := detectVersionPrecision version in
                  formatVersion pkgVersion currentPrecision
              end in
            if bool_decide (finalVersion = version) then inr None
            else
              let newImport :=
                registryPrefix registry +:+ ":" +:+ name +:+ "@" +:+ finalVersion
                  +:+ default EmptyString subpath in
              inr (Some {| newImport := newImport; name := name;
                           oldVersion := version; newVersion := finalVersion |})
      end
  end.

(** [deno.imports[importKey] = value] for a key the object has: the
    value changes, the position of the property does not.  (A key the
    object lacks would add a property; the loop only assigns keys it
    got from [Object.entries].) *)
Fixpoint assign (importKey : string) (value : JsonValue)
    (o : list (string * JsonValue)) : list (string * JsonValue) :=
  match o with
  | [] => [(importKey, value)]
  | (k, v) :: r =>
      if bool_decide (k = importKey) then (k, value) :: r
      else (k, v) :: assign importKey value r
  end.

(** The state the loop of [syncDenoNpmDependencies] updates: the
    [imports] object, the [updates] array and the [hasUpdates] flag. *)
Record LoopState := {
  stImports : list (string * JsonValue);
  stUpdates : list Update.t;
  stHasUpdates : bool
}.

Definition recordUpdate (importKey : string) (r : ImportResult) (st : LoopState) : LoopState :=
  {| stImports := assign importKey (JsonString (newImport r)) (stImports st);
     stUpdates := stUpdates st ++ [Update.mk (name r) (oldVersion r) (newVersion r)];
     stHasUpdates := true |}.

(** One round of the loop; an exception of [processImport] leaves it. *)
Definition loopBody (pkg : PackageJson) (versionPrecision : VersionPrecision)
    (st : LoopState) (entry : string * JsonValue) : Exception + LoopState :=
  let '(importKey, denoImport) := entry in
  match denoImport with
  | JsonOther _ => inr st
  | JsonString denoImport =>
      match processImport denoImport Npm pkg versionPrecision with
      | inl e => inl e
      | inr (Some npmResult) => inr (recordUpdate importKey npmResult st)
      | inr None =>
          match processImport denoImport Jsr pkg versionPrecision with
          | inl e => inl e
          | inr (Some jsrResult) => inr (recordUpdate importKey jsrResult st)
          | inr None => inr st
          end
      end
  end.

Definition updateLine (u : Update.t) : string :=
  "  - " +:+ Update.name u +:+ ": " +:+ Update.oldVersion u +:+ " → " +:+ Update.newVersion u.

(** The object [deno] once the loop has assigned to [deno.imports]. *)
Definition withImports (deno : DenoJson) (o : list (string * JsonValue)) : DenoJson :=
  {| dependencies := dependencies deno;
     devDependencies := devDependencies deno;
     imports := Some o |}.

(** The text written at the end, [JSON.stringify(deno, null, JSON_INDENT)]
    followed by a newline, is the JSON text of the object: [JsonText]. *)
Definition syncDenoNpmDependencies (options : SyncOptions) : IO SyncResult :=
  let silent := default false (silent options) in
  let versionPrecision := default Auto (versionPrecision options) in
  pkgPath ← pathResolve (packageJsonPath options);
  denoPath ← pathResolve (denoJsonPath options);
  pkgExists ← existsSync pkgPath;
  if negb pkgExists then
    throw (Error ("package.json not found at: " +:+ Path.render pkgPath))
  else
  denoExists ← existsSync denoPath;
  if negb denoExists then
    throw (Error ("deno.json not found at: " +:+ Path.render denoPath))
  else
  pkgText ← readFileSync pkgPath;
  pkg ← JSON_parse pkgText;
  denoText ← readFileSync denoPath;
  deno ← JSON_parse denoText;
  entries ← Object_entries (imports deno);
  st ← result (forOf (loopBody pkg versionPrecision) entries
                 {| stImports := entries; stUpdates := []; stHasUpdates := false |});
  (if stHasUpdates st then
     writeFileSync denoPath (JsonText (withImports deno (stImports st)));;
     if silent then mret tt
     else consoleLog "✅ Updated Deno dependencies:";;
          forEach (stUpdates st) (fun u => consoleLog (updateLine u))
   else if silent then mret tt
   else consoleLog "✅ Deno imports are already in sync with package.json");;
  mret {| hasUpdates := stHasUpdates st; updates := stUpdates st |}.

End Main.

(** ** The catalog resolver module *)

Module CatalogResolver.

Import Js Io.

Record CatalogReference := { catalogName : string }.

Section WithDetector.

(** [detect] of the package-manager-detector package: the name of the
    package manager that owns a directory, if it finds one.  It probes
    the file system, so its answer depends on the world. *)
Variable detect : World -> string -> option string.

(** [({})[key][property]] for a [key] of [Object.prototype]: reading a
    property on the member of that name.  What the members hold belongs
    to the built-in objects of the runtime, not to this program, so it
    is a parameter.  The read yields a value, or nothing, or throws (a
    built-in function has the restricted properties [caller] and
    [arguments]). *)
Variable builtinGet : string -> string -> Exception + option Resolved.

Definition detectPackageManager (dir : string) : IO (option string) :=
  fun w => (inr (detect w dir), w).

Definition readPnpmWorkspaceYaml (workspaceRoot : string) : IO (option PnpmWorkspaceYaml) :=
  workspaceYamlPath ← pathResolve (Path.join workspaceRoot "pnpm-workspace.yaml");
  found ← existsSync workspaceYamlPath;
  if negb found then mret None
  else
    tryCatch
      (content ← readFileSync workspaceYamlPath;
       yaml ← YAML_parse content;
       mret (Some yaml))
      (fun _ => mret None).

(** [o?.[packageName] ?? null] on one catalog. *)
Definition entryOf (o : option (gmap string string)) (packageName : string)
    : option Resolved :=
  match member o packageName with
  | Undefined => None
  | Own range => Some (Range range)
  | Inherited key => Some (Builtin [key])
  end.

(** [o?.[catalogName]?.[packageName] ?? null] on the named catalogs: a
    catalog name that falls through to [Object.prototype] finds a
    member there, on which the package name is then read. *)
Definition namedEntryOf (o : option (gmap string (gmap string string)))
    (catalogName packageName : string) : Exception + option Resolved :=
  match member o catalogName with
  | Undefined => inr None
  | Own entries => inr (entryOf (Some entries) packageName)
  | Inherited key => builtinGet key packageName
  end.

Definition resolvePnpmCatalog (packageName catalogName workspaceRoot : string)
    : IO (option Resolved) :=
  yaml ← readPnpmWorkspaceYaml workspaceRoot;
  match yaml with
  | None => mret None
  | Some yaml =>
      if bool_decide (catalogName = "default")%string then
        mret (entryOf (catalog yaml) packageName)
      else
        result (namedEntryOf (catalogs yaml) catalogName packageName)
  end.

Definition parseCatalogReference (reference : string) : option CatalogReference :=
  if negb (startsWith "catalog:" reference) then None
  else
    let catalogName := trim (sliceFrom (String.length "catalog:") reference) in
    Some {| catalogName :=
              if bool_decide (catalogName = EmptyString) then "default"%string
              else catalogName |}.

Definition resolveVersion (version packageName workspaceRoot : string)
    : IO (option Resolved) :=
  match parseCatalogReference version with
  | None => mret (Some (Range version))
  | Some catalogRef =>
      packageManager ← detectPackageManager workspaceRoot;
      if bool_decide (packageManager = Some "pnpm"%string) then
        resolvePnpmCatalog packageName (catalogName catalogRef) workspaceRoot
      else mret None
  end.

(** The [while (currentPath !== root)] loop.  Every round removes one
    segment, so the number of segments bounds the rounds; [rounds]
    counts them down. *)
Fixpoint climb (rounds : nat) (currentPath : list string) : IO (option (list string)) :=
  if bool_decide (currentPath = Path.root) then mret None
  else
    match rounds with
    | O => mret None
    | S rounds' =>
        found ← existsSync (Path.child currentPath "pnpm-workspace.yaml");
        if (found : bool) then mret (Some currentPath)
        else climb rounds' (Path.dirname currentPath)
    end.

Definition findWorkspaceRoot (startPath : string) : IO (option (list string)) :=
  currentPath ← pathResolve startPath;
  climb (length currentPath) currentPath.

End WithDetector.

End CatalogResolver.

(** ** Vocabulary of the statements *)

Module Props.

Import Js Main.

(** Every character of [s] satisfies [p]. *)
Fixpoint allChars (p : ascii -> bool) (s : string) : bool :=
  match s with
  | EmptyString => true
  | String c r => p c && allChars p r
  end.

Definition notSlash (c : ascii) : bool := negb (charEqb c "/").
Definition versionChar (c : ascii) : bool := isDigit c || charEqb c ".".

(** A non-negative integer in decimal: one digit or more. *)
Definition isInteger (s : string) : bool :=
  negb (bool_decide (s = EmptyString)) && allChars isDigit s.

(** One or more dot-separated non-negative integer segments. *)
Definition isVersion (v : string) : bool :=
  forallb isInteger (split "." v).

(** The number of dot-separated segments of a version. *)
Definition segmentCount (v : string) : nat := length (split "." v).

(** What may follow the version in a specifier: nothing, or a subpath
    that starts with [/] and stays on one line. *)
Definition okSubpath (subpath : option string) : Prop :=
  match subpath with
  | None => True
  | Some t => exists r, t = String "/" r /\ noLineTerminator r = true
  end.

(** The two specifier dialects, read off the patterns: which strings
    match and what the named groups hold. *)
Inductive Matches : Registry -> string -> Groups -> Prop :=
  | MatchesNpm (name version : string) (subpath : option string) :
      name <> EmptyString ->
      allChars notAt name = true ->
      isVersion version = true ->
      okSubpath subpath ->
      Matches Npm
        ("npm:" +:+ name +:+ "@" +:+ version +:+ default EmptyString subpath)
        {| groupName := name; groupVersion := version; groupSubpath := subpath |}
  | MatchesJsr (scope pkg version : string) (subpath : option string) :
      scope <> EmptyString ->
      allChars notSlashAt scope = true ->
      pkg <> EmptyString ->
      allChars notSlashAt pkg = true ->
      isVersion version = true ->
      okSubpath subpath ->
      Matches Jsr
        ("jsr:@" +:+ scope +:+ "/" +:+ pkg +:+ "@" +:+ version +:+ default EmptyString subpath)
        {| groupName := "@" +:+ scope +:+ "/" +:+ pkg;
           groupVersion := version; groupSubpath := subpath |}.

(** What follows a version in a match starts with [/] or is empty. *)
Definition tailStart (t : string) : Prop :=
  match t with EmptyString => True | String c _ => c = "/" end.

Definition pattern (registry : Registry) : string -> option Groups :=
  match registry with Npm => npmPattern | Jsr => jsrPattern end.

(** The candidate version of a package: the declaration of the
    development section if there is one, else that of the regular
    section, without its leading non-digits. *)
Definition candidate (pkg : PackageJson) (name : string) : Exception + option string :=
  nullish (declared (devDependencies pkg) name) (declared (dependencies pkg) name).

(** Keeping the first [n] dot-separated segments, in the words of the
    specification. *)
Definition keepSegments (n : nat) (v : string) : string :=
  join "." (take n (split "." v)).

(** The final version of the specification, per precision mode. *)
Definition finalVersionSpec (mode : VersionPrecision) (candidate embedded : string) : string :=
  match mode with
  | Major => keepSegments 1 candidate
  | Minor => keepSegments 2 candidate
  | Full => candidate
  | Auto => keepSegments (segmentCount embedded) candidate
  end.

(** The specifier [processImport] builds from the groups of a match. *)
Definition rebuilt (registry : Registry) (g : Groups) (finalVersion : string) : string :=
  registryPrefix registry +:+ ":" +:+ groupName g +:+ "@" +:+ finalVersion
    +:+ default EmptyString (groupSubpath g).

Definition nonEmpty {A} (l : list A) : bool :=
  match l with [] => false | _ => true end.

(** What one round of the loop decides for a value of the import map. *)
Definition entryResult (pkg : PackageJson) (mode : VersionPrecision)
    (v : JsonValue) : Exception + option ImportResult :=
  match v with
  | JsonOther _ => inr None
  | JsonString s =>
      nullish (processImport s Npm pkg mode) (processImport s Jsr pkg mode)
  end.

Definition entryAfter (pkg : PackageJson) (mode : VersionPrecision)
    (e : string * JsonValue) : string * JsonValue :=
  match entryResult pkg mode e.2 with
  | inr (Some r) => (e.1, JsonString (newImport r))
  | _ => e
  end.

Definition entryUpdates (pkg : PackageJson) (mode : VersionPrecision)
    (e : string * JsonValue) : list Update.t :=
  match entryResult pkg mode e.2 with
  | inr (Some r) => [Update.mk (name r) (oldVersion r) (newVersion r)]
  | _ => []
  end.

(** The round of the loop for an entry ends without an exception. *)
Definition entryReturns (pkg : PackageJson) (mode : VersionPrecision)
    (e : string * JsonValue) : Prop :=
  exists r, entryResult pkg mode e.2 = inr r.

(** Two worlds with the same files, the same history of writes and the
    same working directory: they differ by console output at most. *)
Definition sameDisk (w w' : World) : Prop :=
  cwd w' = cwd w /\ nodes w' = nodes w /\ writes w' = writes w.

(** The world after [writeFileSync(p, c)], up to console output. *)
Definition written (p : list string) (c : Content) (w w' : World) : Prop :=
  cwd w' = cwd w /\ nodes w' = <[p := File c]> (nodes w) /\
  writes w' = writes w ++ [(p, c)].

Definition pkgPathOf (options : SyncOptions) (w : World) : list string :=
  Path.resolve (cwd w) (packageJsonPath options).

Definition denoPathOf (options : SyncOptions) (w : World) : list string :=
  Path.resolve (cwd w) (denoJsonPath options).

Definition modeOf (options : SyncOptions) : VersionPrecision :=
  default Auto (versionPrecision options).

(** The state of the loop when it ends, or the exception that ends it. *)
Definition loopEnd (pkg : PackageJson) (mode : VersionPrecision)
    (entries : list (string * JsonValue)) : Exception + LoopState :=
  Io.forOf (loopBody pkg mode) entries
    {| stImports := entries; stUpdates := []; stHasUpdates := false |}.

(** The world with the node of the workspace document of the filesystem
    root directory changed by [f]: created, replaced or removed. *)
Definition alterRootDocument (f : option Node -> option Node) (w : World) : World :=
  {| cwd := cwd w;
     nodes := partial_alter f (Path.child Path.root "pnpm-workspace.yaml") (nodes w);
     writes := writes w;
     console := console w |}.

(** The candidates of a manifest hold no [/]. *)
Definition slashFree (pkg : PackageJson) : Prop :=
  forall name c, candidate pkg name = inr (Some c) -> allChars notSlash c = true.

(** The result of [Object.entries] on a JavaScript object: no key twice. *)
Definition distinctKeys (o : list (string * JsonValue)) : Prop := NoDup o.*1.

End Props.

(** ** Concrete worlds *)

Module Scenario.

Import Main.

Local Open Scope string_scope.

Definition pnpmDetected : World -> string -> option string := fun _ _ => Some "pnpm".
Definition yarnDetected : World -> string -> option string := fun _ _ => Some "yarn".

(** The string-keyed properties of the constructor [Object] and of
    [Function.prototype] in ECMAScript 2024. *)
Definition objectStatics : list string :=
  [ "length"; "name"; "prototype"; "assign"; "create"; "defineProperties";
    "defineProperty"; "entries"; "freeze"; "fromEntries"; "getOwnPropertyDescriptor";
    "getOwnPropertyDescriptors"; "getOwnPropertyNames"; "getOwnPropertySymbols";
    "getPrototypeOf"; "groupBy"; "hasOwn"; "is"; "isExtensible"; "isFrozen";
    "isSealed"; "keys"; "preventExtensions"; "seal"; "setPrototypeOf"; "values" ].

Definition functionPrototypeKeys : list string :=
  [ "length"; "name"; "constructor"; "apply"; "bind"; "call"; "toString";
    "caller"; "arguments" ].

(** The built-in objects of ECMAScript 2024, as far as reading a
    string-keyed property on a member of [Object.prototype] goes.  The
    member [__proto__] is [Object.prototype] itself, whose own prototype
    is [null]; every other member is a built-in function, called like
    its key but for [constructor], which is [Object]; reading [caller]
    or [arguments] on a built-in function throws. *)
Definition builtins (key property : string) : Exception + option Resolved :=
  if bool_decide (key = "__proto__") then
    if bool_decide (property = "__proto__") then inr None
    else if Js.inheritedKey property then inr (Some (Builtin [property]))
    else inr None
  else if bool_decide (property = "caller") || bool_decide (property = "arguments") then
    inl TypeError
  else if bool_decide (property = "name") then
    inr (Some (Range (if bool_decide (key = "constructor") then "Object" else key)))
  else if bool_decide (property ∈ functionPrototypeKeys) || Js.inheritedKey property
          || (bool_decide (key = "constructor") && bool_decide (property ∈ objectStatics))
  then inr (Some (Builtin [key; property]))
  else inr None.

Definition manifestOf (deps devDeps : option (gmap string string)) : JsonObject :=
  {| dependencies := deps; devDependencies := devDeps; imports := None |}.

Definition importMapOf (entries : list (string * JsonValue)) : JsonObject :=
  {| dependencies := None; devDependencies := None; imports := Some entries |}.

Definition worldOf (files : gmap (list string) Node) : World :=
  {| cwd := ["ws"]; nodes := files; writes := []; console := [] |}.

Definition defaultOptions : SyncOptions :=
  {| denoJsonPath := "./deno.json"; packageJsonPath := "./package.json";
     silent := None; versionPrecision := None |}.

Definition silentOptions : SyncOptions :=
  {| denoJsonPath := "deno.json"; packageJsonPath := "package.json";
     silent := Some true; versionPrecision := None |}.

Definition denoPath : list string := ["ws"; "deno.json"].
Definition pkgPath : list string := ["ws"; "package.json"].
Definition yamlPath : list string := ["ws"; "pnpm-workspace.yaml"].

Definition zodCatalog : PnpmWorkspaceYaml :=
  {| catalog := Some {[ "zod" := "^3.22.0" ]}; catalogs := None |}.

(** A workspace document with a default catalog and a catalog named
    [prod] that pin the same package differently. *)
Definition namedCatalog : PnpmWorkspaceYaml :=
  {| catalog := Some {[ "zod" := "^3.22.0" ]};
     catalogs := Some {[ "prod" := {[ "zod" := "^3.23.8" ]} ]} |}.

Definition namedCatalogWorld : World :=
  worldOf {[ yamlPath := File (YamlText namedCatalog) ]}.

(** Scenario 1 of the specification, laid out as the test of the
    repository does: the three documents in one directory. *)
Definition catalogWorld : World :=
  worldOf {[ yamlPath := File (YamlText zodCatalog);
             pkgPath := File (JsonText (manifestOf (Some {[ "zod" := "catalog:" ]}) None));
             denoPath := File (JsonText (importMapOf [("zod", JsonString "npm:zod@3.21.0")])) ]}.

(** A catalog reference with no workspace document to resolve it, next
    to an ordinary entry. *)
Definition unresolvedWorld : World :=
  worldOf {[ pkgPath := File (JsonText (manifestOf
                           (Some {[ "zod" := "catalog:"; "lodash" := "^4.17.21" ]}) None));
             denoPath := File (JsonText (importMapOf
                           [("zod", JsonString "npm:zod@3.21.0");
                            ("lodash", JsonString "npm:lodash@4.17.0")])) ]}.

(** A manifest that declares a package by a path. *)
Definition pathRangeWorld : World :=
  worldOf {[ pkgPath := File (JsonText (manifestOf
                           (Some {[ "foo" := "file:../foo2/bar" ]}) None));
             denoPath := File (JsonText (importMapOf
                           [("foo", JsonString "npm:foo@1.0.0")])) ]}.

(** An import map that lags behind its manifest. *)
Definition lodashManifest : JsonObject := manifestOf (Some {[ "lodash" := "^4.17.21" ]}) None.

Definition staleWorld : World :=
  worldOf {[ pkgPath := File (JsonText lodashManifest);
             denoPath := File (JsonText (importMapOf
                           [("lodash/fp", JsonString "npm:lodash@4.17.0/fp")])) ]}.

(** An import map in step with its manifest, with a URL entry. *)
Definition settledWorld : World :=
  worldOf {[ pkgPath := File (JsonText lodashManifest);
             denoPath := File (JsonText (importMapOf
                           [("std", JsonString "https://deno.land/std/mod.ts");
                            ("lodash", JsonString "npm:lodash@4.17.21")])) ]}.

(** An entry for a package whose name is a member of [Object.prototype],
    next to a manifest that does not declare it. *)
Definition inheritedNameWorld : World :=
  worldOf {[ pkgPath := File (JsonText lodashManifest);
             denoPath := File (JsonText (importMapOf
                           [("ctor", JsonString "npm:constructor@1.0.0")])) ]}.

(** An import map without a manifest. *)
Definition noManifestWorld : World :=
  worldOf {[ denoPath := File (JsonText (importMapOf [])) ]}.

(** A workspace document in the filesystem root directory only. *)
Definition rootDocumentWorld : World :=
  {| cwd := ["home"; "app"];
     nodes := {[ ["pnpm-workspace.yaml"] := File (YamlText zodCatalog) ]};
     writes := []; console := [] |}.

Definition typescriptManifest : JsonObject :=
  manifestOf (Some {[ "typescript" := "^4.9.0" ]}) (Some {[ "typescript" := "^5.0.0" ]}).

Definition zodManifest : JsonObject := manifestOf (Some {[ "zod" := "^3.22.4" ]}) None.

Definition fooManifest : JsonObject := manifestOf (Some {[ "foo" := "^1.2.3.5" ]}) None.

Definition groupsOf (name version : string) : Groups :=
  {| groupName := name; groupVersion := version; groupSubpath := None |}.

End Scenario.

(** ** The earlier revision of the engine

    The repository also holds the revision of main.ts that precedes the
    precision modes: one function, with the two patterns matched in the
    loop itself. *)

Module Legacy.

Import Js Io Main.

Record SyncOptions := {
  denoJsonPath : string;
  packageJsonPath : string;
  silent : option bool
}.

(** One branch of the loop: [registry] is the literal of the template
    string of that branch. *)
Definition branch (registry : string) (groups : Groups) (pkg : PackageJson)
    (importKey : string) (st : LoopState) : Exception + LoopState :=
  let name := groupName groups in
  let version := groupVersion groups in
  let subpath := groupSubpath groups in
  let pkgVersion :=
    nullish (declared (devDependencies pkg) name) (declared (dependencies pkg) name) in
  match pkgVersion with
  | inl e => inl e
  | inr (Some pkgVersion) =>
      if negb (bool_decide (pkgVersion = version)) then
        let newImport :=
          registry +:+ name +:+ "@" +:+ pkgVersion +:+ default EmptyString subpath in
        inr {| stImports := assign importKey (JsonString newImport) (stImports st);
               stUpdates := stUpdates st ++ [Update.mk name version pkgVersion];
               stHasUpdates := true |}
      else inr st
  | inr None => inr st
  end.

Definition loopBody (pkg : PackageJson) (st : LoopState)
    (entry : string * JsonValue) : Exception + LoopState :=
  let '(importKey, denoImport) := entry in
  match denoImport with
  | JsonOther _ => inr st
  | JsonString denoImport =>
      let npmMatch := npmPattern denoImport in
      let jsrMatch := jsrPattern denoImport in
      match npmMatch with
      | Some groups => branch "npm:" groups pkg importKey st
      | None =>
          match jsrMatch with
          | Some groups => branch "jsr:" groups pkg importKey st
          | None => inr st
          end
      end
  end.

Definition syncDenoNpmDependencies (options : SyncOptions) : IO SyncResult :=
  let silent := default false (silent options) in
  pkgPath ← pathResolve (packageJsonPath options);
  denoPath ← pathResolve (denoJsonPath options);
  pkgExists ← existsSync pkgPath;
  if negb pkgExists then
    throw (Error ("package.json not found at: " +:+ Path.render pkgPath))
  else
  denoExists ← existsSync denoPath;
  if negb denoExists then
    throw (Error ("deno.json not found at: " +:+ Path.render denoPath))
  else
  pkgText ← readFileSync pkgPath;
  pkg ← JSON_parse pkgText;
  denoText ← readFileSync denoPath;
  deno ← JSON_parse denoText;
  entries ← Object_entries (imports deno);
  st ← result (forOf (loopBody pkg) entries
                 {| stImports := entries; stUpdates := []; stHasUpdates := false |});
  (if stHasUpdates st then
     writeFileSync denoPath (JsonText (withImports deno (stImports st)));;
     if silent then mret tt
     else consoleLog "✅ Updated Deno dependencies:";;
          forEach (stUpdates st) (fun u => consoleLog (updateLine u))
   else if silent then mret tt
   else consoleLog "✅ Deno imports are already in sync with package.json");;
  mret {| hasUpdates := stHasUpdates st; updates := stUpdates st |}.

(** The options of the current engine that a call of the earlier one
    corresponds to. *)
Definition asFull (options : SyncOptions) : Main.SyncOptions :=
  {| Main.denoJsonPath := denoJsonPath options;
     Main.packageJsonPath := packageJsonPath options;
     Main.silent := silent options;
     Main.versionPrecision := Some Full |}.

End Legacy.

(** ** More vocabulary *)

Module More.

Import Js Main CatalogResolver Props.

Local Open Scope string_scope.

(** A segment of a normalised path: not empty, not [.] or [..], no [/]. *)
Definition isSegment (seg : string) : bool :=
  negb (bool_decide (seg = "")) && negb (bool_decide (seg = "."))
  && negb (bool_decide (seg = "..")) && allChars notSlash seg.

Definition notDigit (c : ascii) : bool := negb (isDigit c).
Definition notDot (c : ascii) : bool := negb (charEqb c ".").

(** A string that is empty or starts with a digit. *)
Definition digitFirst (s : string) : Prop :=
  match s with EmptyString => True | String c _ => isDigit c = true end.

Definition withSilent (b : bool) (options : SyncOptions) : SyncOptions :=
  {| denoJsonPath := denoJsonPath options;
     packageJsonPath := packageJsonPath options;
     silent := Some b;
     versionPrecision := versionPrecision options |}.

(** The entries of the import map at a path, if a JSON document with an
    [imports] member is there. *)
Definition importsAt (w : World) (p : list string) : option (list (string * JsonValue)) :=
  match nodes w !! p with
  | Some (File (JsonText o)) => imports o
  | _ => None
  end.

(** A printable ASCII character other than the space. *)
Definition isPlain (c : ascii) : bool :=
  ((33 <=? nat_of_ascii c)%nat && (nat_of_ascii c <=? 126)%nat)%bool.

Fixpoint spaces (n : nat) : string :=
  match n with O => "" | S n' => String " " (spaces n') end.

(** Where the file system looks for the workspace document of a root. *)
Definition workspaceDocumentPath (w : World) (workspaceRoot : string) : list string :=
  Path.resolve (cwd w) (Path.join workspaceRoot "pnpm-workspace.yaml").

(** The catalog that a catalog name selects in a workspace document,
    when the document has it as a property of its own: the default
    catalog for [default], the named catalog of that name otherwise. *)
Definition selectedCatalog (yaml : PnpmWorkspaceYaml) (catalogName : string)
    : option (gmap string string) :=
  if bool_decide (catalogName = "default") then catalog yaml
  else catalogs yaml ≫= (.!! catalogName).

(** What [resolvePnpmCatalog] looks up in a workspace document. *)
Definition catalogEntry (builtinGet : string -> string -> Exception + option Resolved)
    (yaml : PnpmWorkspaceYaml) (catalogName packageName : string)
    : Exception + option Resolved :=
  if bool_decide (catalogName = "default") then inr (entryOf (catalog yaml) packageName)
  else namedEntryOf builtinGet (catalogs yaml) catalogName packageName.

(** The fatal condition of a run, if there is one, in the order in which
    the engine meets them. *)
Definition fatalCondition (options : SyncOptions) (w : World) : option Exception :=
  match nodes w !! pkgPathOf options w, nodes w !! denoPathOf options w with
  | None, _ =>
      Some (Error ("package.json not found at: " +:+ Path.render (pkgPathOf options w)))
  | Some _, None =>
      Some (Error ("deno.json not found at: " +:+ Path.render (denoPathOf options w)))
  | Some Directory, Some _ => Some (SystemError "EISDIR")
  | Some (File (JsonText _)), Some Directory => Some (SystemError "EISDIR")
  | Some (File (JsonText _)), Some (File (JsonText deno)) =>
      match imports deno with
      | None => Some TypeError
      | Some _ => None
      end
  | Some (File _), Some _ => Some SyntaxError
  end.

End More.

(** * Properties *)

Import Js Io Main CatalogResolver Props.

Local Close Scope char_scope.

(** ** Strings *)

Lemma str_app_cons (c : ascii) (s t : string) : String c s +:+ t = String c (s +:+ t).
Proof. reflexivity. Qed.

Lemma str_app_nil_r (s : string) : s +:+ EmptyString = s.
Proof. induction s as [|c s IH]; [done|]. by rewrite str_app_cons, IH. Qed.

Lemma str_app_assoc (a b c : string) : (a +:+ b) +:+ c = a +:+ (b +:+ c).
Proof. induction a as [|x a IH]; [done|]. by rewrite !str_app_cons, IH. Qed.

Lemma charEqb_true (a b : ascii) : charEqb a b = true <-> a = b.
Proof. unfold charEqb. apply bool_decide_eq_true. Qed.

Lemma charEqb_false (a b : ascii) : charEqb a b = false <-> a <> b.
Proof. unfold charEqb. apply bool_decide_eq_false. Qed.

Lemma allChars_app (p : ascii -> bool) (a b : string) :
  allChars p (a +:+ b) = allChars p a && allChars p b.
Proof.
  induction a as [|c a IH]; [done|].
  rewrite str_app_cons. simpl. rewrite IH. by rewrite andb_assoc.
Qed.

Lemma allChars_impl (p q : ascii -> bool) (s : string) :
  (forall c, p c = true -> q c = true) -> allChars p s = true -> allChars q s = true.
Proof.
  intros Hpq. induction s as [|c s IH]; [done|]. simpl.
  intros [Hc Hs]%andb_true_iff. apply andb_true_iff. split; auto.
Qed.

Lemma stripPrefix_app (p s : string) : stripPrefix p (p +:+ s) = Some s.
Proof.
  induction p as [|c p IH]; [done|].
  rewrite str_app_cons. simpl. unfold charEqb. by rewrite bool_decide_eq_true_2.
Qed.

Lemma stripPrefix_Some (p s r : string) : stripPrefix p s = Some r -> s = p +:+ r.
Proof.
  revert s. induction p as [|c p IH]; intros s; simpl.
  - by intros [= ->].
  - destruct s as [|d s]; [done|].
    destruct (charEqb c d) eqn:E; [|done].
    apply charEqb_true in E as ->. intros H%IH. by rewrite str_app_cons, H.
Qed.

(** Pushing the literal prefixes of an equation between strings to the
    front, so that [injection] and [discriminate] see them. *)
Ltac str_norm H :=
  repeat first
    [ rewrite str_app_cons in H
    | match type of H with
      | context [EmptyString +:+ ?t] => change (EmptyString +:+ t) with t in H
      end ].

(** ** Character-class runs *)

Lemma span_spec (p : ascii -> bool) (s a b : string) :
  span p s = (a, b) ->
  s = a +:+ b /\ allChars p a = true /\
  match b with EmptyString => True | String c _ => p c = false end.
Proof.
  revert a b. induction s as [|c s IH]; intros a b; simpl.
  - by intros [= <- <-].
  - destruct (p c) eqn:E.
    + destruct (span p s) as [a' b'] eqn:Es. intros [= <- <-].
      destruct (IH _ _ eq_refl) as (-> & Ha & Hb).
      rewrite str_app_cons. simpl. by rewrite E, Ha.
    + intros [= <- <-]. by rewrite E.
Qed.

Lemma span_app (p : ascii -> bool) (a b : string) :
  allChars p a = true ->
  match b with EmptyString => True | String c _ => p c = false end ->
  span p (a +:+ b) = (a, b).
Proof.
  intros Ha Hb. induction a as [|c a IH].
  - destruct b as [|c b]; [done|]. simpl. by rewrite Hb.
  - simpl in Ha. apply andb_true_iff in Ha as [Hc Ha].
    rewrite str_app_cons. simpl. by rewrite Hc, (IH Ha).
Qed.

(** ** [split] and [join] *)

Lemma split_nonempty (sep : ascii) (s : string) : exists h t, split sep s = h :: t.
Proof.
  induction s as [|c s (h & t & IH)]; simpl; [eauto|].
  destruct (charEqb c sep); [eauto|]. rewrite IH. eauto.
Qed.

Lemma split_length_pos (sep : ascii) (s : string) : 1 <= length (split sep s).
Proof. destruct (split_nonempty sep s) as (h & t & ->). simpl. lia. Qed.

Lemma join_cons2 (sep x y : string) (l : list string) :
  join sep (x :: y :: l) = x +:+ sep +:+ join sep (y :: l).
Proof. reflexivity. Qed.

Lemma join_split (sep : ascii) (s : string) :
  join (String sep EmptyString) (split sep s) = s.
Proof.
  induction s as [|c s IH]; [done|]. simpl.
  destruct (split_nonempty sep s) as (h & t & E). rewrite E in IH |- *.
  destruct (charEqb c sep) eqn:Ec.
  - apply charEqb_true in Ec as ->. rewrite join_cons2, IH. reflexivity.
  - destruct t as [|y t].
    + simpl in IH |- *. by rewrite IH.
    + rewrite join_cons2 in IH |- *. by rewrite str_app_cons, IH.
Qed.

Lemma split_no_sep (sep : ascii) (x : string) :
  allChars (fun c => negb (charEqb c sep)) x = true -> split sep x = [x].
Proof.
  induction x as [|c x IH]; [done|]. simpl.
  intros [Hc Hx]%andb_true_iff. apply negb_true_iff in Hc. by rewrite Hc, (IH Hx).
Qed.

Lemma split_app_sep (sep : ascii) (x rest : string) :
  allChars (fun c => negb (charEqb c sep)) x = true ->
  split sep (x +:+ String sep rest) = x :: split sep rest.
Proof.
  induction x as [|c x IH].
  - intros _. simpl. unfold charEqb. by rewrite bool_decide_eq_true_2.
  - simpl. intros [Hc Hx]%andb_true_iff. apply negb_true_iff in Hc.
    by rewrite Hc, (IH Hx).
Qed.

Lemma split_join (sep : ascii) (l : list string) :
  l <> [] ->
  Forall (fun x => allChars (fun c => negb (charEqb c sep)) x = true) l ->
  split sep (join (String sep EmptyString) l) = l.
Proof.
  induction l as [|x l IH]; [done|]. intros _ Hl.
  apply Forall_cons in Hl as [Hx Hl].
  destruct l as [|y l].
  - simpl. by apply split_no_sep.
  - rewrite join_cons2, str_app_cons. change (EmptyString +:+ ?t) with t.
    rewrite split_app_sep by done. by rewrite IH.
Qed.

Lemma split_segments (sep : ascii) (s : string) :
  Forall (fun x => allChars (fun c => negb (charEqb c sep)) x = true) (split sep s).
Proof.
  induction s as [|c s IH]; simpl.
  - by constructor.
  - destruct (charEqb c sep) eqn:Ec.
    + by constructor.
    + destruct (split_nonempty sep s) as (h & t & E). rewrite E in IH |- *.
      apply Forall_cons in IH as [Hh Ht]. constructor; [|done].
      simpl. by rewrite Ec, Hh.
Qed.

Lemma split_allChars (q : ascii -> bool) (sep : ascii) (s : string) :
  allChars q s = true -> Forall (fun x => allChars q x = true) (split sep s).
Proof.
  induction s as [|c s IH]; simpl.
  - by constructor.
  - intros [Hc Hs]%andb_true_iff. specialize (IH Hs).
    destruct (charEqb c sep).
    + by constructor.
    + destruct (split_nonempty sep s) as (h & t & E). rewrite E in IH |- *.
      apply Forall_cons in IH as [Hh Ht]. constructor; [|done].
      simpl. by rewrite Hc, Hh.
Qed.

Lemma join_allChars (q : ascii -> bool) (sep : string) (l : list string) :
  allChars q sep = true ->
  Forall (fun x => allChars q x = true) l ->
  allChars q (join sep l) = true.
Proof.
  intros Hsep. induction l as [|x l IH]; [done|].
  intros [Hx Hl]%Forall_cons. destruct l as [|y l]; [done|].
  rewrite join_cons2, !allChars_app, Hx, Hsep. simpl. by apply IH.
Qed.

(** ** The version scanner *)

Lemma isDigit_not_dot (c : ascii) : isDigit c = true -> charEqb c "." = false.
Proof.
  intros H. apply charEqb_false. intros ->. discriminate H.
Qed.

Lemma isVersion_single (c : ascii) :
  isDigit c = true -> isVersion (String c EmptyString) = true.
Proof.
  intros H. unfold isVersion. simpl. rewrite (isDigit_not_dot c H). simpl.
  unfold isInteger. simpl. by rewrite H.
Qed.

Lemma isVersion_digit_cons (c : ascii) (v : string) :
  isDigit c = true -> isVersion v = true -> isVersion (String c v) = true.
Proof.
  intros H. unfold isVersion. simpl. rewrite (isDigit_not_dot c H).
  destruct (split_nonempty "." v) as (h & t & ->). simpl.
  intros [Hh Ht]%andb_true_iff. rewrite Ht, andb_true_r.
  unfold isInteger in *. simpl. rewrite H. simpl.
  by apply andb_true_iff in Hh as [_ Hh].
Qed.

Lemma isVersion_digit_dot (c : ascii) (v : string) :
  isDigit c = true -> isVersion v = true -> isVersion (String c (String "." v)) = true.
Proof.
  intros H Hv. unfold isVersion. simpl. rewrite (isDigit_not_dot c H). simpl.
  fold (isVersion v). rewrite Hv, andb_true_r.
  unfold isInteger. simpl. by rewrite H.
Qed.

(** The three shapes of a version, by its first characters. *)
Lemma isVersion_inv (c : ascii) (r : string) :
  isVersion (String c r) = true ->
  isDigit c = true /\
  match r with
  | EmptyString => True
  | String d r' =>
      (isDigit d = true /\ isVersion r = true) \/ (d = "."%char /\ isVersion r' = true)
  end.
Proof.
  unfold isVersion. simpl.
  destruct (charEqb c ".") eqn:Ec; [done|].
  destruct (split_nonempty "." r) as (h & t & E). rewrite E. simpl.
  intros [Hh Ht]%andb_true_iff.
  unfold isInteger in Hh. simpl in Hh. apply andb_true_iff in Hh as [Hc Hh].
  split; [done|].
  destruct r as [|d r']; [done|]. simpl in E |- *.
  destruct (charEqb d ".") eqn:Ed.
  - right. apply charEqb_true in Ed. injection E as <- <-. done.
  - left. destruct (split_nonempty "." r') as (h' & t' & E'). rewrite E' in E.
    injection E as <- <-. simpl in Hh. apply andb_true_iff in Hh as [Hd Hh'].
    split; [done|]. unfold isVersion. simpl.
    rewrite Ht, andb_true_r.
    unfold isInteger. simpl. by rewrite Hd, Hh'.
Qed.

Lemma isVersion_nonempty (v : string) : isVersion v = true -> v <> EmptyString.
Proof. by intros H ->. Qed.

Lemma forallb_Forall {A} (f : A -> bool) (l : list A) :
  forallb f l = true <-> Forall (fun x => f x = true) l.
Proof.
  induction l as [|x l IH]; simpl.
  - split; [by constructor|done].
  - rewrite andb_true_iff, Forall_cons, IH. done.
Qed.

Lemma isVersion_chars (v : string) :
  isVersion v = true -> allChars versionChar v = true.
Proof.
  intros H. rewrite <- (join_split "." v). apply join_allChars; [done|].
  unfold isVersion in H. apply forallb_Forall in H.
  eapply Forall_impl; [exact H|]. intros x [_ Hx]%andb_true_iff.
  eapply allChars_impl; [|exact Hx]. intros c Hc. unfold versionChar. by rewrite Hc.
Qed.

Lemma scanVersion_sound_aux (n : nat) (s v rest : string) :
  String.length s <= n ->
  scanVersion s = Some (v, rest) ->
  s = v +:+ rest /\ isVersion v = true.
Proof.
  revert s v rest. induction n as [|n IH]; intros s v rest Hn.
  - destruct s; [done|simpl in Hn; lia].
  - destruct s as [|c r]; [done|]. simpl in Hn. simpl.
    destruct (isDigit c) eqn:Hc; [|done].
    destruct r as [|d r'].
    + intros [= <- <-]. split; [done|]. by apply isVersion_single.
    + destruct (isDigit d) eqn:Hd.
      * destruct (scanVersion (String d r')) as [[v' rest']|] eqn:E.
        -- intros [= <- <-]. apply IH in E as [E Hv]; [|simpl in *; lia]. rewrite E.
           split; [done|]. by apply isVersion_digit_cons.
        -- intros [= <- <-]. split; [done|]. by apply isVersion_single.
      * destruct (charEqb d ".") eqn:Edot.
        -- apply charEqb_true in Edot as ->.
           destruct (scanVersion r') as [[v' rest']|] eqn:E.
           ++ intros [= <- <-]. apply IH in E as [E Hv]; [|simpl in *; lia]. rewrite E.
              split; [done|]. by apply isVersion_digit_dot.
           ++ intros [= <- <-]. split; [done|]. by apply isVersion_single.
        -- intros [= <- <-]. split; [done|]. by apply isVersion_single.
Qed.

Lemma scanVersion_sound (s v rest : string) :
  scanVersion s = Some (v, rest) -> s = v +:+ rest /\ isVersion v = true.
Proof. apply (scanVersion_sound_aux (String.length s)). lia. Qed.

Lemma scanVersion_complete_aux (n : nat) (v t : string) :
  String.length v <= n ->
  isVersion v = true -> tailStart t ->
  scanVersion (v +:+ t) = Some (v, t).
Proof.
  revert v. induction n as [|n IH]; intros v Hn Hv Ht.
  - destruct v; [done|simpl in Hn; lia].
  - destruct v as [|c r]; [done|]. simpl in Hn.
    apply isVersion_inv in Hv as [Hc Hr].
    rewrite str_app_cons. simpl. rewrite Hc.
    destruct r as [|d r'].
    + destruct t as [|x t']; [done|]. simpl in Ht. subst x. done.
    + rewrite str_app_cons. destruct Hr as [[Hd Hr]|[-> Hr]].
      * rewrite Hd. rewrite <- str_app_cons. rewrite IH; [done|simpl in *; lia|done|done].
      * simpl. rewrite IH; [done|simpl in *; lia|done|done].
Qed.

Lemma scanVersion_complete (v t : string) :
  isVersion v = true -> tailStart t -> scanVersion (v +:+ t) = Some (v, t).
Proof. apply (scanVersion_complete_aux (String.length v)). lia. Qed.

(** ** The two patterns against the dialects they describe *)

Lemma matchSubpath_spec (rest : string) (subpath : option string) :
  matchSubpath rest = Some subpath <->
  rest = default EmptyString subpath /\ okSubpath subpath.
Proof.
  unfold matchSubpath. destruct rest as [|c r].
  - split.
    + by intros [= <-].
    + intros [H Hok]. destruct subpath as [t|]; [|done].
      destruct Hok as (r & -> & _). done.
  - split.
    + destruct (charEqb c "/") eqn:Ec; [|done].
      destruct (noLineTerminator r) eqn:Er; [|done].
      apply charEqb_true in Ec as ->. intros [= <-]. simpl. eauto.
    + intros [H Hok]. destruct subpath as [t|]; [|done].
      destruct Hok as (r' & -> & Hr'). simpl in H. injection H as -> ->.
      by rewrite Hr'.
Qed.

Lemma okSubpath_tailStart (subpath : option string) :
  okSubpath subpath -> tailStart (default EmptyString subpath).
Proof. destruct subpath as [t|]; [|done]. by intros (r & -> & _). Qed.

Lemma matchAtVersion_sound (name s : string) (g : Groups) :
  matchAtVersion name s = Some g ->
  exists version subpath,
    g = {| groupName := name; groupVersion := version; groupSubpath := subpath |} /\
    s = "@" +:+ version +:+ default EmptyString subpath /\
    isVersion version = true /\ okSubpath subpath.
Proof.
  unfold matchAtVersion. destruct s as [|c r]; [done|].
  destruct (decide (c = "@"%char)) as [->|Hne].
  - destruct (scanVersion r) as [[version rest]|] eqn:E; [|done].
    destruct (matchSubpath rest) as [subpath|] eqn:Es; [|done].
    intros [= <-]. apply scanVersion_sound in E as [-> Hv].
    apply matchSubpath_spec in Es as [-> Hok]. by exists version, subpath.
  - destruct c as [[] [] [] [] [] [] [] []]; done.
Qed.

Lemma matchAtVersion_complete (name version : string) (subpath : option string) :
  isVersion version = true -> okSubpath subpath ->
  matchAtVersion name ("@" +:+ version +:+ default EmptyString subpath)
  = Some {| groupName := name; groupVersion := version; groupSubpath := subpath |}.
Proof.
  intros Hv Hok. rewrite str_app_cons. change (EmptyString +:+ ?t) with t.
  unfold matchAtVersion.
  rewrite scanVersion_complete by auto using okSubpath_tailStart.
  by rewrite (proj2 (matchSubpath_spec _ subpath)).
Qed.

Lemma npmPattern_sound (s : string) (g : Groups) :
  npmPattern s = Some g -> Matches Npm s g.
Proof.
  unfold npmPattern. destruct (stripPrefix "npm:" s) as [r|] eqn:Ep; [|done].
  apply stripPrefix_Some in Ep as ->.
  destruct (span notAt r) as [name r1] eqn:Es.
  apply span_spec in Es as (-> & Hname & _).
  case_bool_decide as Hne; [done|].
  intros (version & subpath & -> & -> & Hv & Hok)%matchAtVersion_sound.
  by constructor.
Qed.

Lemma npmPattern_complete (s : string) (g : Groups) :
  Matches Npm s g -> npmPattern s = Some g.
Proof.
  inversion 1 as [name version subpath Hne Hname Hv Hok|]; subst.
  unfold npmPattern. rewrite stripPrefix_app.
  rewrite span_app; [|done|done].
  rewrite bool_decide_eq_false_2 by done.
  by apply matchAtVersion_complete.
Qed.

Lemma jsrPattern_sound (s : string) (g : Groups) :
  jsrPattern s = Some g -> Matches Jsr s g.
Proof.
  unfold jsrPattern. destruct (stripPrefix "jsr:@" s) as [r|] eqn:Ep; [|done].
  apply stripPrefix_Some in Ep as ->.
  destruct (span notSlashAt r) as [scope r1] eqn:Es.
  apply span_spec in Es as (-> & Hscope & _).
  case_bool_decide as Hne; [done|].
  destruct r1 as [|c r2]; [done|].
  destruct (decide (c = "/"%char)) as [->|Hc];
    [|destruct c as [[] [] [] [] [] [] [] []]; done].
  destruct (span notSlashAt r2) as [pkg r3] eqn:Es2.
  apply span_spec in Es2 as (-> & Hpkg & _).
  case_bool_decide as Hne2; [done|].
  intros (version & subpath & -> & -> & Hv & Hok)%matchAtVersion_sound.
  by apply (MatchesJsr scope pkg version subpath).
Qed.

Lemma jsrPattern_complete (s : string) (g : Groups) :
  Matches Jsr s g -> jsrPattern s = Some g.
Proof.
  inversion 1 as [|scope pkg version subpath Hne Hscope Hne2 Hpkg Hv Hok]; subst.
  unfold jsrPattern. rewrite stripPrefix_app.
  rewrite span_app; [|done|done].
  rewrite bool_decide_eq_false_2 by done.
  rewrite str_app_cons. change (EmptyString +:+ ?t) with t.
  rewrite span_app; [|done|done].
  rewrite bool_decide_eq_false_2 by done.
  by apply matchAtVersion_complete.
Qed.

(** The patterns decide exactly the two dialects. *)
Lemma pattern_Matches (registry : Registry) (s : string) (g : Groups) :
  pattern registry s = Some g <-> Matches registry s g.
Proof.
  destruct registry; simpl; split;
    auto using npmPattern_sound, npmPattern_complete,
               jsrPattern_sound, jsrPattern_complete.
Qed.

(** ** [processImport], step by step *)

Lemma major_keeps_first (v : string) :
  default v (head (split "." v)) = keepSegments 1 v.
Proof.
  unfold keepSegments. destruct (split_nonempty "." v) as (h & t & ->). done.
Qed.

Lemma processImport_unfold (s : string) (registry : Registry) (pkg : PackageJson)
    (mode : VersionPrecision) :
  processImport s registry pkg mode =
  match pattern registry s with
  | None => inr None
  | Some g =>
      match candidate pkg (groupName g) with
      | inl e => inl e
      | inr None => inr None
      | inr (Some c) =>
          if bool_decide (c = groupVersion g) then inr None
          else
            let final := finalVersionSpec mode c (groupVersion g) in
            if bool_decide (final = groupVersion g) then inr None
            else inr (Some {| newImport := rebuilt registry g final;
                              name := groupName g;
                              oldVersion := groupVersion g;
                              newVersion := final |})
      end
  end.
Proof.
  unfold processImport, pattern, candidate.
  destruct registry; (destruct (_ s) as [g|]; [|done]);
    (destruct (nullish _ _) as [e|[c|]]; [done| |done]);
    (case_bool_decide; [done|]);
    destruct mode; simpl; rewrite ?major_keeps_first; done.
Qed.

Lemma patterns_disjoint (s : string) (g : Groups) :
  npmPattern s = Some g -> jsrPattern s = None.
Proof.
  intros H%npmPattern_sound. inversion H; subst. reflexivity.
Qed.

Lemma patterns_disjoint' (s : string) (g : Groups) :
  jsrPattern s = Some g -> npmPattern s = None.
Proof.
  intros H%jsrPattern_sound. inversion H; subst. reflexivity.
Qed.

Lemma processImport_no_match (s : string) (registry : Registry) (pkg : PackageJson)
    (mode : VersionPrecision) :
  pattern registry s = None -> processImport s registry pkg mode = inr None.
Proof. intros H. by rewrite processImport_unfold, H. Qed.

(** ** Property lookups *)

Lemma member_own {V} (m : gmap string V) (key : string) (v : V) :
  m !! key = Some v -> member (Some m) key = Own v.
Proof. intros H. unfold member. by rewrite H. Qed.

Lemma member_Own_inv {V} (o : option (gmap string V)) (key : string) (v : V) :
  member o key = Own v -> exists m, o = Some m /\ m !! key = Some v.
Proof.
  destruct o as [m|]; [|done]. unfold member.
  destruct (m !! key) as [v'|] eqn:E.
  - intros [= ->]. by exists m.
  - by destruct (inheritedKey key).
Qed.

Lemma member_Inherited_inv {V} (o : option (gmap string V)) (key key' : string) :
  member o key = Inherited key' ->
  key' = key /\ inheritedKey key = true /\ exists m, o = Some m /\ m !! key = None.
Proof.
  destruct o as [m|]; [|done]. unfold member.
  destruct (m !! key) as [v'|] eqn:E; [done|].
  destruct (inheritedKey key) eqn:Hk; [|done].
  intros [= <-]. split; [done|]. split; [done|]. by exists m.
Qed.

Lemma member_inherited {V} (m : gmap string V) (key : string) :
  m !! key = None -> inheritedKey key = true -> member (Some m) key = Inherited key.
Proof. intros H Hk. unfold member. by rewrite H, Hk. Qed.

Lemma member_plain {V} (o : option (gmap string V)) (key : string) :
  inheritedKey key = false ->
  member o key = match o ≫= (.!! key) with Some v => Own v | None => Undefined end.
Proof.
  intros Hk. destruct o as [m|]; [|done]. simpl. unfold member.
  destruct (m !! key); [done|]. by rewrite Hk.
Qed.

(** ** The loop of [syncDenoNpmDependencies] *)

Lemma loopBody_entry (pkg : PackageJson) (mode : VersionPrecision) (st : LoopState)
    (e : string * JsonValue) :
  loopBody pkg mode st e =
  match entryResult pkg mode e.2 with
  | inl x => inl x
  | inr (Some r) => inr (recordUpdate e.1 r st)
  | inr None => inr st
  end.
Proof.
  destruct e as [k [s|t]]; simpl; [|done].
  destruct (processImport s Npm pkg mode) as [x|[r|]]; [done..|].
  by destruct (processImport s Jsr pkg mode) as [x|[r|]].
Qed.

Lemma assign_fresh (k : string) (v old : JsonValue) (before after : list (string * JsonValue)) :
  k ∉ before.*1 ->
  assign k v (before ++ (k, old) :: after) = before ++ (k, v) :: after.
Proof.
  induction before as [|[k' v'] before IH]; simpl; intros Hk.
  - by rewrite bool_decide_eq_true_2.
  - apply not_elem_of_cons in Hk as [Hne Hk].
    rewrite bool_decide_eq_false_2 by done. by rewrite IH.
Qed.

Lemma entry_changed (pkg : PackageJson) (mode : VersionPrecision)
    (e : string * JsonValue) (r : ImportResult) :
  entryResult pkg mode e.2 = inr (Some r) ->
  entryAfter pkg mode e = (e.1, JsonString (newImport r)) /\
  entryUpdates pkg mode e = [Update.mk (name r) (oldVersion r) (newVersion r)].
Proof. intros H. unfold entryAfter, entryUpdates. by rewrite H. Qed.

Lemma entry_unchanged (pkg : PackageJson) (mode : VersionPrecision)
    (e : string * JsonValue) :
  entryResult pkg mode e.2 = inr None ->
  entryAfter pkg mode e = e /\ entryUpdates pkg mode e = [].
Proof. intros H. unfold entryAfter, entryUpdates. by rewrite H. Qed.

(** The loop ends without an exception exactly when every round does. *)
Lemma loop_returns (pkg : PackageJson) (mode : VersionPrecision)
    (todo : list (string * JsonValue)) (st st' : LoopState) :
  forOf (loopBody pkg mode) todo st = inr st' -> Forall (entryReturns pkg mode) todo.
Proof.
  revert st. induction todo as [|e todo IH]; intros st; simpl; [done|].
  rewrite loopBody_entry.
  destruct (entryResult pkg mode e.2) as [x|[r|]] eqn:Er; [done|..];
    intros H; (constructor; [by eexists|by eapply IH]).
Qed.

Lemma loop_completes (pkg : PackageJson) (mode : VersionPrecision)
    (todo : list (string * JsonValue)) (st : LoopState) :
  Forall (entryReturns pkg mode) todo ->
  exists st', forOf (loopBody pkg mode) todo st = inr st'.
Proof.
  revert st. induction todo as [|e todo IH]; intros st Hall; simpl; [by eexists|].
  apply Forall_cons in Hall as [[r Hr] Hall].
  rewrite loopBody_entry, Hr. destruct r; by apply IH.
Qed.

Lemma loop_general (pkg : PackageJson) (mode : VersionPrecision)
    (todo before : list (string * JsonValue)) (ups : list Update.t) (b : bool) :
  NoDup (before ++ todo).*1 ->
  Forall (entryReturns pkg mode) todo ->
  forOf (loopBody pkg mode) todo
    {| stImports := before ++ todo; stUpdates := ups; stHasUpdates := b |}
  = inr {| stImports := before ++ map (entryAfter pkg mode) todo;
           stUpdates := ups ++ concat (map (entryUpdates pkg mode) todo);
           stHasUpdates := b || nonEmpty (concat (map (entryUpdates pkg mode) todo)) |}.
Proof.
  revert before ups b. induction todo as [|e todo IH]; intros before ups b Hnd Hall.
  - simpl. by rewrite !app_nil_r, orb_false_r.
  - simpl forOf. rewrite loopBody_entry.
    apply Forall_cons in Hall as [[r0 Hr0] Hall].
    assert (Hk : e.1 ∉ before.*1).
    { rewrite fmap_app in Hnd. apply NoDup_app in Hnd as (_ & Hd & _).
      intros Hin. apply (Hd _ Hin). simpl. left. }
    simpl map. rewrite Hr0.
    destruct r0 as [r|].
    + destruct (entry_changed _ _ _ _ Hr0) as [-> ->].
      unfold recordUpdate. simpl. destruct e as [k old]. simpl in *.
      rewrite assign_fresh by done.
      replace (before ++ (k, JsonString (newImport r)) :: todo)
        with ((before ++ [(k, JsonString (newImport r))]) ++ todo)
        by by rewrite <- app_assoc.
      rewrite IH; [| |done].
      * rewrite <- !app_assoc. simpl. by rewrite orb_true_r.
      * rewrite <- app_assoc. simpl. rewrite fmap_app in Hnd |- *. done.
    + destruct (entry_unchanged _ _ _ Hr0) as [-> ->]. simpl concat.
      replace (before ++ e :: todo) with ((before ++ [e]) ++ todo)
        by by rewrite <- app_assoc.
      rewrite IH; [| |done].
      * rewrite <- !app_assoc. done.
      * by rewrite <- app_assoc.
Qed.

Lemma loop_spec (pkg : PackageJson) (mode : VersionPrecision)
    (entries : list (string * JsonValue)) (st : LoopState) :
  distinctKeys entries ->
  loopEnd pkg mode entries = inr st ->
  st = {| stImports := map (entryAfter pkg mode) entries;
          stUpdates := concat (map (entryUpdates pkg mode) entries);
          stHasUpdates := nonEmpty (concat (map (entryUpdates pkg mode) entries)) |}.
Proof.
  intros H Hst. pose proof (loop_returns _ _ _ _ _ Hst) as Hall.
  pose proof (loop_general pkg mode entries [] [] false H Hall) as Hg.
  unfold loopEnd in Hst. simpl in Hg. rewrite Hg in Hst.
  by injection Hst as <-.
Qed.

(** Without any assumption on the keys: the flag tells whether a change
    was recorded, and the records are those of the entries in order. *)
Lemma loop_updates (pkg : PackageJson) (mode : VersionPrecision)
    (todo : list (string * JsonValue)) (st st' : LoopState) :
  forOf (loopBody pkg mode) todo st = inr st' ->
  stUpdates st' = stUpdates st ++ concat (map (entryUpdates pkg mode) todo) /\
  stHasUpdates st' = stHasUpdates st || nonEmpty (concat (map (entryUpdates pkg mode) todo)) /\
  (nonEmpty (concat (map (entryUpdates pkg mode) todo)) = false -> st' = st).
Proof.
  revert st. induction todo as [|e todo IH]; intros st; simpl.
  - intros [= <-]. by rewrite app_nil_r, orb_false_r.
  - rewrite loopBody_entry.
    destruct (entryResult pkg mode e.2) as [x|[r|]] eqn:Er; [done|..]; intros Hst.
    + destruct (entry_changed _ _ _ _ Er) as [_ ->].
      destruct (IH _ Hst) as (H1 & H2 & _).
      rewrite H1, H2. simpl. rewrite <- app_assoc. split; [done|]. split; [|done].
      by rewrite orb_true_r.
    + destruct (entry_unchanged _ _ _ Er) as [_ ->]. simpl. by apply IH.
Qed.

(** ** [syncDenoNpmDependencies] as a whole *)

Lemma forEach_log (l : list Update.t) (w : World) :
  exists w', forEach l (fun u => consoleLog (updateLine u)) w = (inr tt, w') /\ sameDisk w w'.
Proof.
  revert w. induction l as [|u l IH]; intros w; simpl.
  - by exists w.
  - unfold mbind, IO_bind. simpl.
    edestruct IH as (w' & -> & H). exists w'. split; [done|].
    destruct H as (? & ? & ?). done.
Qed.

Lemma sync_missing_manifest (options : SyncOptions) (w : World) :
  nodes w !! pkgPathOf options w = None ->
  syncDenoNpmDependencies options w
  = (inl (Error ("package.json not found at: " +:+ Path.render (pkgPathOf options w))), w).
Proof.
  intros H. unfold syncDenoNpmDependencies, mbind, IO_bind, pathResolve, existsSync.
  fold (pkgPathOf options w). rewrite H.
  rewrite bool_decide_eq_false_2; [done|]. by intros [? ?].
Qed.

Lemma sync_missing_import_map (options : SyncOptions) (w : World) :
  is_Some (nodes w !! pkgPathOf options w) ->
  nodes w !! denoPathOf options w = None ->
  syncDenoNpmDependencies options w
  = (inl (Error ("deno.json not found at: " +:+ Path.render (denoPathOf options w))), w).
Proof.
  intros H1 H2. unfold syncDenoNpmDependencies, mbind, IO_bind, pathResolve, existsSync.
  fold (pkgPathOf options w) (denoPathOf options w).
  rewrite bool_decide_eq_true_2 by done. simpl. rewrite H2.
  rewrite bool_decide_eq_false_2; [done|]. by intros [? ?].
Qed.

(** What is left of a run once both documents are known to exist. *)
Lemma sync_start (options : SyncOptions) (w : World) :
  is_Some (nodes w !! pkgPathOf options w) ->
  is_Some (nodes w !! denoPathOf options w) ->
  syncDenoNpmDependencies options w =
    (pkgText ← readFileSync (pkgPathOf options w);
     pkg ← JSON_parse pkgText;
     denoText ← readFileSync (denoPathOf options w);
     deno ← JSON_parse denoText;
     entries ← Object_entries (imports deno);
     st ← result (loopEnd pkg (modeOf options) entries);
     (if stHasUpdates st then
        writeFileSync (denoPathOf options w) (JsonText (withImports deno (stImports st)));;
        if default false (silent options) then mret tt
        else consoleLog "✅ Updated Deno dependencies:";;
             forEach (stUpdates st) (fun u => consoleLog (updateLine u))
      else if default false (silent options) then mret tt
      else consoleLog "✅ Deno imports are already in sync with package.json");;
     mret {| hasUpdates := stHasUpdates st; updates := stUpdates st |}) w.
Proof.
  intros H1 H2.
  unfold syncDenoNpmDependencies, mbind, IO_bind, pathResolve, existsSync.
  fold (pkgPathOf options w) (denoPathOf options w) (modeOf options).
  rewrite bool_decide_eq_true_2 by done. simpl.
  rewrite bool_decide_eq_true_2 by done. done.
Qed.

Lemma sync_run (options : SyncOptions) (w : World) (pkg : PackageJson) (deno : DenoJson)
    (entries : list (string * JsonValue)) (st : LoopState) :
  nodes w !! pkgPathOf options w = Some (File (JsonText pkg)) ->
  nodes w !! denoPathOf options w = Some (File (JsonText deno)) ->
  imports deno = Some entries ->
  loopEnd pkg (modeOf options) entries = inr st ->
  exists w',
    syncDenoNpmDependencies options w
    = (inr {| hasUpdates := stHasUpdates st; updates := stUpdates st |}, w') /\
    if stHasUpdates st
    then written (denoPathOf options w) (JsonText (withImports deno (stImports st))) w w'
    else sameDisk w w'.
Proof.
  intros H1 H2 H3 H4.
  rewrite sync_start by (by eexists).
  unfold mbind, IO_bind, readFileSync, result.
  rewrite H1. simpl. rewrite H2. simpl. rewrite H3. simpl. rewrite H4.
  destruct (stHasUpdates st) eqn:Hu.
  - destruct (default false (silent options)); simpl.
    + eexists. split; [done|]. done.
    + edestruct forEach_log as (w' & -> & Hw'). exists w'. split; [done|].
      destruct Hw' as (? & ? & ?). done.
  - destruct (default false (silent options)); simpl.
    + eexists. split; [done|]. done.
    + eexists. split; [done|]. done.
Qed.

(** An exception in the loop ends the run before anything is written. *)
Lemma sync_loop_throws (options : SyncOptions) (w : World) (pkg : PackageJson)
    (deno : DenoJson) (entries : list (string * JsonValue)) (e : Exception) :
  nodes w !! pkgPathOf options w = Some (File (JsonText pkg)) ->
  nodes w !! denoPathOf options w = Some (File (JsonText deno)) ->
  imports deno = Some entries ->
  loopEnd pkg (modeOf options) entries = inl e ->
  syncDenoNpmDependencies options w = (inl e, w).
Proof.
  intros H1 H2 H3 H4.
  rewrite sync_start by (by eexists).
  unfold mbind, IO_bind, readFileSync, result.
  rewrite H1. simpl. rewrite H2. simpl. rewrite H3. simpl. by rewrite H4.
Qed.

(** Every run either throws and leaves the world as it was, or finds the
    two documents and goes through the whole loop. *)
Lemma sync_outcome (options : SyncOptions) (w : World) :
  (exists e, syncDenoNpmDependencies options w = (inl e, w)) \/
  (exists pkg deno entries st,
     nodes w !! pkgPathOf options w = Some (File (JsonText pkg)) /\
     nodes w !! denoPathOf options w = Some (File (JsonText deno)) /\
     imports deno = Some entries /\
     loopEnd pkg (modeOf options) entries = inr st).
Proof.
  destruct (nodes w !! pkgPathOf options w) as [n1|] eqn:H1;
    [|left; eexists; by apply sync_missing_manifest].
  destruct (nodes w !! denoPathOf options w) as [n2|] eqn:H2;
    [|left; eexists; by apply sync_missing_import_map].
  destruct n1 as [|[| pkg |]];
    try (left; eexists; rewrite sync_start by (by eexists);
         unfold mbind, IO_bind, readFileSync; rewrite H1; reflexivity).
  destruct n2 as [|[| deno |]];
    try (left; eexists; rewrite sync_start by (by eexists);
         unfold mbind, IO_bind, readFileSync; rewrite H1; simpl; rewrite H2; reflexivity).
  destruct (imports deno) as [entries|] eqn:H3.
  - destruct (loopEnd pkg (modeOf options) entries) as [e|st] eqn:H4.
    + left. exists e. by eapply sync_loop_throws.
    + right. by exists pkg, deno, entries, st.
  - left. eexists. rewrite sync_start by (by eexists).
    unfold mbind, IO_bind, readFileSync. rewrite H1. simpl. rewrite H2. simpl.
    rewrite H3. reflexivity.
Qed.

(** No fatal condition leaves a trace: the world after a throw is the
    world before the call. *)
Lemma sync_throw_untouched (options : SyncOptions) (w w' : World) (e : Exception) :
  syncDenoNpmDependencies options w = (inl e, w') -> w' = w.
Proof.
  destruct (sync_outcome options w) as [[e0 H]|(pkg & deno & entries & st & H1 & H2 & H3 & H4)].
  - rewrite H. by intros [= _ <-].
  - destruct (sync_run options w pkg deno entries st H1 H2 H3 H4) as (w0 & -> & _). done.
Qed.

Lemma sync_return_inv (options : SyncOptions) (w w' : World) (r : SyncResult) :
  syncDenoNpmDependencies options w = (inr r, w') ->
  exists pkg deno entries st,
    nodes w !! pkgPathOf options w = Some (File (JsonText pkg)) /\
    nodes w !! denoPathOf options w = Some (File (JsonText deno)) /\
    imports deno = Some entries /\
    loopEnd pkg (modeOf options) entries = inr st /\
    r = {| hasUpdates := stHasUpdates st; updates := stUpdates st |} /\
    if stHasUpdates st
    then written (denoPathOf options w) (JsonText (withImports deno (stImports st))) w w'
    else sameDisk w w'.
Proof.
  intros Hr.
  destruct (sync_outcome options w) as [[e0 H]|(pkg & deno & entries & st & H1 & H2 & H3 & H4)].
  - rewrite H in Hr. done.
  - exists pkg, deno, entries, st. do 4 (split; [done|]).
    destruct (sync_run options w pkg deno entries st H1 H2 H3 H4) as (w0 & H & Hw).
    rewrite H in Hr. injection Hr as <- <-. done.
Qed.

(** ** Decompositions are unique *)

Lemma sep_unique (q : ascii -> bool) (c : ascii) (a a' b b' : string) :
  q c = false ->
  allChars q a = true -> allChars q a' = true ->
  a +:+ String c b = a' +:+ String c b' ->
  a = a' /\ b = b'.
Proof.
  intros Hc. revert a'. induction a as [|x a IH]; intros [|x' a']; simpl.
  - intros _ _ [= ->]. done.
  - intros _ [Hx _]%andb_true_iff. rewrite str_app_cons. intros [= <- _]. congruence.
  - intros [Hx _]%andb_true_iff _. rewrite str_app_cons. intros [= -> _]. congruence.
  - intros [_ Ha]%andb_true_iff [_ Ha']%andb_true_iff. rewrite !str_app_cons.
    intros [= -> H]. destruct (IH _ Ha Ha' H) as [-> ->]. done.
Qed.

Lemma tail_unique (a a' t t' : string) :
  allChars notSlash a = true -> allChars notSlash a' = true ->
  tailStart t -> tailStart t' ->
  a +:+ t = a' +:+ t' ->
  a = a' /\ t = t'.
Proof.
  revert a'. induction a as [|x a IH]; intros [|x' a']; simpl.
  - intros _ _ _ _ H. done.
  - intros _ [Hx _]%andb_true_iff Ht _. rewrite str_app_cons.
    change (EmptyString +:+ t) with t. intros ->. simpl in Ht. by subst x'.
  - intros [Hx _]%andb_true_iff _ _ Ht'. rewrite str_app_cons.
    change (EmptyString +:+ t') with t'. intros <-. simpl in Ht'. by subst x.
  - intros [_ Ha]%andb_true_iff [_ Ha']%andb_true_iff Ht Ht'. rewrite !str_app_cons.
    intros [= -> H]. destruct (IH _ Ha Ha' Ht Ht' H) as [-> ->]. done.
Qed.

Lemma versionChar_notSlash (v : string) :
  allChars versionChar v = true -> allChars notSlash v = true.
Proof.
  apply allChars_impl. intros c. unfold versionChar, notSlash.
  intros [H|H]%orb_true_iff.
  - apply negb_true_iff, charEqb_false. intros ->. done.
  - apply charEqb_true in H as ->. done.
Qed.

(** ** Keeping segments *)

Lemma keepSegments_chars (q : ascii -> bool) (n : nat) (v : string) :
  q "."%char = true -> allChars q v = true -> allChars q (keepSegments n v) = true.
Proof.
  intros Hdot Hv. unfold keepSegments. apply join_allChars.
  - simpl. by rewrite Hdot.
  - apply Forall_take. by apply split_allChars.
Qed.

Lemma finalVersionSpec_chars (q : ascii -> bool) (mode : VersionPrecision) (c v : string) :
  q "."%char = true -> allChars q c = true -> allChars q (finalVersionSpec mode c v) = true.
Proof. intros Hdot Hc. destruct mode; simpl; auto using keepSegments_chars. Qed.

Lemma split_keepSegments (n : nat) (v : string) :
  1 <= n -> split "." (keepSegments n v) = take n (split "." v).
Proof.
  intros Hn. unfold keepSegments. apply split_join.
  - destruct (split_nonempty "." v) as (h & t & ->). destruct n; [lia|done].
  - apply Forall_take, split_segments.
Qed.

Lemma keepSegments_stable (n : nat) (v : string) :
  1 <= n -> keepSegments (segmentCount (keepSegments n v)) v = keepSegments n v.
Proof.
  intros Hn. unfold segmentCount. rewrite split_keepSegments by done.
  unfold keepSegments. f_equal. rewrite length_take.
  destruct (decide (n <= length (split "." v))).
  - by rewrite Nat.min_l.
  - rewrite Nat.min_r by lia. rewrite !take_ge by lia. done.
Qed.

(** Applying a precision mode to the candidate again, now against the
    version it produced, produces that version again. *)
Lemma finalVersionSpec_stable (mode : VersionPrecision) (c v : string) :
  finalVersionSpec mode c (finalVersionSpec mode c v) = finalVersionSpec mode c v.
Proof.
  destruct mode; simpl; try done.
  apply keepSegments_stable. apply split_length_pos.
Qed.

(** ** A rewritten specifier is settled *)

Lemma Matches_tailStart (registry : Registry) (s : string) (g : Groups) :
  Matches registry s g -> tailStart (default EmptyString (groupSubpath g)).
Proof. inversion 1; subst; simpl; by apply okSubpath_tailStart. Qed.

Lemma Matches_version (registry : Registry) (s : string) (g : Groups) :
  Matches registry s g -> isVersion (groupVersion g) = true.
Proof. by inversion 1; subst. Qed.

(** Reading back a specifier built from the groups of a match: the
    registry and the name are found again, and so is the version that
    was put in, provided it holds no [/]. *)
Lemma rebuilt_read_back (registry registry' : Registry) (s : string) (g g' : Groups)
    (final : string) :
  Matches registry s g ->
  allChars notSlash final = true ->
  Matches registry' (rebuilt registry g final) g' ->
  registry' = registry /\ groupName g' = groupName g /\ groupVersion g' = final.
Proof.
  intros Hm Hfinal Hm'.
  pose proof (Matches_tailStart _ _ _ Hm) as Ht.
  pose proof (Matches_tailStart _ _ _ Hm') as Ht'.
  pose proof (versionChar_notSlash _ (isVersion_chars _ (Matches_version _ _ _ Hm'))) as Hv'.
  remember (rebuilt registry g final) as s' eqn:Heq. unfold rebuilt in Heq.
  destruct Hm as [name version subpath Hne Hname Hv Hok
                 |scope pkg version subpath Hne Hscope Hne2 Hpkg Hv Hok];
    destruct Hm' as [name' version' subpath' Hne' Hname' Hver' Hok'
                    |scope' pkg' version' subpath' Hne' Hscope' Hne2' Hpkg' Hver' Hok'];
    simpl in *; rewrite ?str_app_assoc in Heq; str_norm Heq;
    try discriminate Heq; injection Heq as Heq.
  - apply (sep_unique notAt "@") in Heq as [-> Heq]; [|done..].
    apply tail_unique in Heq as [-> _]; done.
  - apply (sep_unique notSlashAt "/") in Heq as [-> Heq]; [|done..].
    apply (sep_unique notSlashAt "@") in Heq as [-> Heq]; [|done..].
    apply tail_unique in Heq as [-> _]; done.
Qed.

Lemma processImport_Some (s : string) (registry : Registry) (pkg : PackageJson)
    (mode : VersionPrecision) (r : ImportResult) :
  processImport s registry pkg mode = inr (Some r) ->
  exists g c,
    pattern registry s = Some g /\
    candidate pkg (groupName g) = inr (Some c) /\
    c <> groupVersion g /\
    finalVersionSpec mode c (groupVersion g) <> groupVersion g /\
    r = {| newImport := rebuilt registry g (finalVersionSpec mode c (groupVersion g));
           name := groupName g;
           oldVersion := groupVersion g;
           newVersion := finalVersionSpec mode c (groupVersion g) |}.
Proof.
  rewrite processImport_unfold.
  destruct (pattern registry s) as [g|]; [|done].
  destruct (candidate pkg (groupName g)) as [e|[c|]] eqn:Ec; [done| |done].
  case_bool_decide as H1; [done|]. simpl.
  case_bool_decide as H2; [done|].
  intros [= <-]. by exists g, c.
Qed.

Lemma processImport_settled (s : string) (registry registry' : Registry)
    (pkg : PackageJson) (mode : VersionPrecision) (r : ImportResult) :
  (forall c, candidate pkg (name r) = inr (Some c) -> allChars notSlash c = true) ->
  processImport s registry pkg mode = inr (Some r) ->
  processImport (newImport r) registry' pkg mode = inr None.
Proof.
  intros Hclean (g & c & Hp & Hc & Hne & Hfinal & ->)%processImport_Some.
  simpl in *. specialize (Hclean c Hc).
  rewrite processImport_unfold.
  destruct (pattern registry' _) as [g'|] eqn:Hp'; [|done].
  apply pattern_Matches in Hp, Hp'.
  eapply rebuilt_read_back in Hp' as (-> & Hn & Hv); [|exact Hp|].
  2:{ by apply finalVersionSpec_chars. }
  rewrite Hn, Hc, Hv. case_bool_decide; [done|]. simpl.
  rewrite finalVersionSpec_stable. by rewrite bool_decide_eq_true_2.
Qed.

(** A string matches one dialect at most, so the loop asks the manifest
    about one name at most. *)
Lemma pattern_unique (registry registry' : Registry) (s : string) (g g' : Groups) :
  pattern registry s = Some g -> pattern registry' s = Some g' ->
  registry' = registry /\ g' = g.
Proof.
  intros Hp Hp'. destruct registry, registry'; simpl in *.
  - split; congruence.
  - by rewrite (patterns_disjoint _ _ Hp) in Hp'.
  - by rewrite (patterns_disjoint' _ _ Hp) in Hp'.
  - split; congruence.
Qed.

(** What a round of the loop decides for a string that matches a
    dialect is what [processImport] decides for that dialect. *)
Lemma entryResult_matched (s : string) (registry : Registry) (pkg : PackageJson)
    (mode : VersionPrecision) (g : Groups) :
  pattern registry s = Some g ->
  entryResult pkg mode (JsonString s) = processImport s registry pkg mode.
Proof.
  intros Hp. simpl. destruct registry; simpl in Hp.
  - rewrite (processImport_no_match s Jsr) by by eapply patterns_disjoint.
    by destruct (processImport s Npm pkg mode) as [e|[r|]].
  - by rewrite (processImport_no_match s Npm) by by eapply patterns_disjoint'.
Qed.

(** ** Exceptions of the loop *)

Lemma declared_exception (section : option (gmap string string)) (name : string)
    (e : Exception) :
  declared section name = inl e -> e = TypeError.
Proof. unfold declared. destruct (member section name); congruence. Qed.

Lemma candidate_exception (pkg : PackageJson) (name : string) (e : Exception) :
  candidate pkg name = inl e -> e = TypeError.
Proof.
  unfold candidate, nullish.
  destruct (declared (devDependencies pkg) name) as [e'|[c|]] eqn:E; [|done|].
  - intros [= <-]. by eapply declared_exception.
  - apply declared_exception.
Qed.

Lemma processImport_exception (s : string) (registry : Registry) (pkg : PackageJson)
    (mode : VersionPrecision) (e : Exception) :
  processImport s registry pkg mode = inl e -> e = TypeError.
Proof.
  rewrite processImport_unfold.
  destruct (pattern registry s) as [g|]; [|done].
  destruct (candidate pkg (groupName g)) as [e'|[c|]] eqn:Ec; [| |done].
  - intros [= <-]. by eapply candidate_exception.
  - case_bool_decide; [done|]. simpl. by case_bool_decide.
Qed.

Lemma entryResult_exception (pkg : PackageJson) (mode : VersionPrecision) (v : JsonValue)
    (e : Exception) :
  entryResult pkg mode v = inl e -> e = TypeError.
Proof.
  destruct v as [s|t]; [|done]. simpl. unfold nullish.
  destruct (processImport s Npm pkg mode) as [e'|[r|]] eqn:E; [|done|].
  - intros [= <-]. by eapply processImport_exception.
  - apply processImport_exception.
Qed.

Lemma loop_exception (pkg : PackageJson) (mode : VersionPrecision)
    (todo : list (string * JsonValue)) (st : LoopState) (e : Exception) :
  forOf (loopBody pkg mode) todo st = inl e -> e = TypeError.
Proof.
  revert st. induction todo as [|x todo IH]; intros st; simpl; [done|].
  rewrite loopBody_entry.
  destruct (entryResult pkg mode x.2) as [e'|[r|]] eqn:Er; [|apply IH..].
  intros [= <-]. by eapply entryResult_exception.
Qed.

(** A round that throws ends the loop, wherever its entry stands. *)
Lemma loop_throws (pkg : PackageJson) (mode : VersionPrecision)
    (todo : list (string * JsonValue)) (st : LoopState) (x : string * JsonValue) :
  x ∈ todo -> entryResult pkg mode x.2 = inl TypeError ->
  forOf (loopBody pkg mode) todo st = inl TypeError.
Proof.
  intros Hin Hx.
  destruct (forOf (loopBody pkg mode) todo st) as [e|st'] eqn:E.
  - f_equal. by eapply loop_exception.
  - apply loop_returns in E. rewrite Forall_forall in E.
    destruct (E x Hin) as [r Hr]. congruence.
Qed.

(** The lookup of a name that neither section declares. *)
Lemma candidate_undeclared (pkg : PackageJson) (n : string) :
  devDependencies pkg ≫= (.!! n) = None ->
  dependencies pkg ≫= (.!! n) = None ->
  candidate pkg n =
    if inheritedKey n
       && (bool_decide (is_Some (devDependencies pkg))
           || bool_decide (is_Some (dependencies pkg)))
    then inl TypeError else inr None.
Proof.
  intros Hdev Hdeps. unfold candidate, declared, member.
  destruct (devDependencies pkg) as [dev|], (dependencies pkg) as [deps|];
    simpl in *; rewrite ?Hdev, ?Hdeps; destruct (inheritedKey n); simpl;
    rewrite ?bool_decide_eq_true_2 by (by eexists); try done.
  all: rewrite ?bool_decide_eq_false_2 by (by intros [? ?]); done.
Qed.

(** * The claims *)

(** ** C4: the precision policy *)

(** C4.  For an entry that matches a dialect and for whose package the
    manifest yields a candidate version, the final version is the one
    the precision mode prescribes: the first segment of the candidate
    for [Major], its first two segments (fewer if it has fewer) for
    [Minor], the candidate itself for [Full], and for [Auto] as many
    segments as the embedded version has.  Every result of
    [processImport] carries that final version; a result is returned
    when candidate and final version both differ from the embedded one;
    and when the final version equals the embedded one the round of the
    loop leaves its state, import map and change list alike, as it
    was. *)
Theorem C4_final_version_by_precision_mode
    (s : string) (registry : Registry) (pkg : PackageJson) (mode : VersionPrecision)
    (g : Groups) (c : string) :
  pattern registry s = Some g ->
  candidate pkg (groupName g) = inr (Some c) ->
  let final := finalVersionSpec mode c (groupVersion g) in
  (forall r, processImport s registry pkg mode = inr (Some r) ->
     newVersion r = final /\ oldVersion r = groupVersion g /\ name r = groupName g /\
     newImport r = rebuilt registry g final) /\
  (c <> groupVersion g -> final <> groupVersion g ->
     processImport s registry pkg mode
     = inr (Some {| newImport := rebuilt registry g final; name := groupName g;
                    oldVersion := groupVersion g; newVersion := final |})) /\
  (final = groupVersion g ->
     forall st importKey, loopBody pkg mode st (importKey, JsonString s) = inr st).
Proof.
  intros Hp Hc final. split; [|split].
  - intros r (g' & c' & Hp' & Hc' & _ & _ & ->)%processImport_Some.
    rewrite Hp in Hp'. injection Hp' as <-. rewrite Hc in Hc'. injection Hc' as <-.
    done.
  - intros H1 H2. rewrite processImport_unfold, Hp, Hc.
    rewrite bool_decide_eq_false_2 by done. simpl.
    by rewrite bool_decide_eq_false_2 by done.
  - intros Hfinal st importKey. rewrite loopBody_entry.
    change ((importKey, JsonString s).2) with (JsonString s).
    rewrite (entryResult_matched _ _ _ _ _ Hp).
    rewrite processImport_unfold, Hp, Hc. case_bool_decide; [done|]. simpl.
    by rewrite bool_decide_eq_true_2.
Qed.

Lemma C4_witness :
  finalVersionSpec Auto "3.22.4" "3" = "3" /\
  loopBody Scenario.zodManifest Auto
    {| stImports := [("zod", JsonString "npm:zod@3")]; stUpdates := []; stHasUpdates := false |}
    ("zod", JsonString "npm:zod@3")
  = inr {| stImports := [("zod", JsonString "npm:zod@3")]; stUpdates := [];
           stHasUpdates := false |}.
Proof.
  split; [reflexivity|].
  apply (C4_final_version_by_precision_mode "npm:zod@3" Npm Scenario.zodManifest Auto
           (Scenario.groupsOf "zod" "3") "3.22.4").
  - reflexivity.
  - vm_compute. reflexivity.
  - reflexivity.
Defined.

(** ** C6: which section of the manifest is used *)

(** C6, where the code departs from it.  A name that neither section
    declares is not always skipped.  When the name of a matching entry
    is one that every object inherits from [Object.prototype]
    ([constructor], [toString], ...) and the manifest has a dependency
    section, the lookup finds the inherited member, calls its missing
    [replace], and the round of the loop throws a TypeError: the run
    ends there, with nothing written and no entry changed. *)
Theorem C6_inherited_name_is_fatal
    (options : SyncOptions) (w : World) (pkg : PackageJson) (deno : DenoJson)
    (entries : list (string * JsonValue)) (importKey s : string)
    (registry : Registry) (g : Groups) :
  nodes w !! pkgPathOf options w = Some (File (JsonText pkg)) ->
  nodes w !! denoPathOf options w = Some (File (JsonText deno)) ->
  imports deno = Some entries ->
  (importKey, JsonString s) ∈ entries ->
  pattern registry s = Some g ->
  devDependencies pkg ≫= (.!! groupName g) = None ->
  dependencies pkg ≫= (.!! groupName g) = None ->
  inheritedKey (groupName g) = true ->
  is_Some (devDependencies pkg) \/ is_Some (dependencies pkg) ->
  (forall st, loopBody pkg (modeOf options) st (importKey, JsonString s) = inl TypeError) /\
  syncDenoNpmDependencies options w = (inl TypeError, w).
Proof.
  intros H1 H2 H3 Hin Hp Hdev Hdeps Hk Hsec.
  assert (Hthrow : entryResult pkg (modeOf options) (JsonString s) = inl TypeError).
  { rewrite (entryResult_matched _ _ _ _ _ Hp), processImport_unfold, Hp.
    rewrite candidate_undeclared by done. rewrite Hk. simpl.
    destruct Hsec as [Hs|Hs]; rewrite (bool_decide_eq_true_2 _ Hs);
      by rewrite ?orb_true_r. }
  split.
  - intros st. rewrite loopBody_entry.
    change ((importKey, JsonString s).2) with (JsonString s). by rewrite Hthrow.
  - eapply sync_loop_throws; [done..|].
    by eapply loop_throws.
Qed.

Lemma C6_witness :
  syncDenoNpmDependencies Scenario.silentOptions Scenario.inheritedNameWorld
  = (inl TypeError, Scenario.inheritedNameWorld).
Proof.
  apply (C6_inherited_name_is_fatal Scenario.silentOptions Scenario.inheritedNameWorld
           Scenario.lodashManifest
           (Scenario.importMapOf [("ctor", JsonString "npm:constructor@1.0.0")])
           [("ctor", JsonString "npm:constructor@1.0.0")]
           "ctor" "npm:constructor@1.0.0" Npm (Scenario.groupsOf "constructor" "1.0.0")).
  - vm_compute. reflexivity.
  - vm_compute. reflexivity.
  - reflexivity.
  - apply list_elem_of_singleton. reflexivity.
  - reflexivity.
  - reflexivity.
  - reflexivity.
  - reflexivity.
  - right. by eexists.
Defined.

(** ** C3: the embedded version of a matching specifier *)

Lemma run_unique (q : ascii -> bool) (a a' t t' : string) :
  allChars q a = true -> allChars q a' = true ->
  match t with EmptyString => True | String x _ => q x = false end ->
  match t' with EmptyString => True | String x _ => q x = false end ->
  a +:+ t = a' +:+ t' ->
  a = a' /\ t = t'.
Proof.
  intros Ha Ha' Ht Ht' Heq.
  pose proof (span_app q a t Ha Ht) as H1.
  pose proof (span_app q a' t' Ha' Ht') as H2.
  rewrite Heq, H2 in H1. by injection H1 as -> ->.
Qed.

Lemma suffixed_no_match (registry registry' : Registry) (s0 : string) (g : Groups)
    (c : ascii) (suffix : string) :
  pattern registry s0 = Some g ->
  groupSubpath g = None ->
  versionChar c = false -> c <> "/"%char ->
  pattern registry' (s0 +:+ String c suffix) = None.
Proof.
  intros Hp Hsub Hc Hslash.
  destruct (pattern registry' _) as [g'|] eqn:Hp'; [|done]. exfalso.
  apply pattern_Matches in Hp, Hp'.
  pose proof (Matches_tailStart _ _ _ Hp') as Ht'.
  pose proof (isVersion_chars _ (Matches_version _ _ _ Hp)) as Hv.
  pose proof (isVersion_chars _ (Matches_version _ _ _ Hp')) as Hv'.
  assert (Hstop : forall t, tailStart t ->
            match t with EmptyString => True | String x _ => versionChar x = false end).
  { intros [|x t]; [done|]. simpl. by intros ->. }
  remember (s0 +:+ String c suffix) as s eqn:Heq.
  destruct Hp as [name version subpath Hne Hname _ Hok
                 |scope pkg version subpath Hne Hscope Hne2 Hpkg _ Hok];
    destruct Hp' as [name' version' subpath' Hne' Hname' Hver' Hok'
                    |scope' pkg' version' subpath' Hne' Hscope' Hne2' Hpkg' Hver' Hok'];
    simpl in *; subst subpath; simpl in Heq;
    rewrite ?str_app_assoc in Heq; str_norm Heq;
    try discriminate Heq; injection Heq as Heq.
  - apply (sep_unique notAt "@") in Heq as [-> Heq]; [|done..].
    apply (run_unique versionChar) in Heq as [_ Heq];
      [|done|done|by apply Hstop|done].
    rewrite Heq in Ht'. simpl in Ht'. congruence.
  - apply (sep_unique notSlashAt "/") in Heq as [-> Heq]; [|done..].
    apply (sep_unique notSlashAt "@") in Heq as [-> Heq]; [|done..].
    apply (run_unique versionChar) in Heq as [_ Heq];
      [|done|done|by apply Hstop|done].
    rewrite Heq in Ht'. simpl in Ht'. congruence.
Qed.

(** C3, as the code has it.  A specifier matches a dialect only if its
    embedded version is made of one or more dot-separated non-negative
    integer segments, and every such version is accepted, whatever the
    number of its segments.  A specifier obtained from a matching one
    without subpath by appending a pre-release ([-]) or build-metadata
    ([+]) suffix matches neither dialect, and the round of the loop that
    meets it leaves the import map and the change list as they were. *)
Theorem C3_embedded_version_shape :
  (forall registry s g,
     pattern registry s = Some g ->
     isVersion (groupVersion g) = true /\ 1 <= segmentCount (groupVersion g)) /\
  (forall name version,
     name <> "" -> allChars notAt name = true -> isVersion version = true ->
     npmPattern ("npm:" +:+ name +:+ "@" +:+ version)
     = Some {| groupName := name; groupVersion := version; groupSubpath := None |}) /\
  (forall scope pkg version,
     scope <> "" -> allChars notSlashAt scope = true ->
     pkg <> "" -> allChars notSlashAt pkg = true -> isVersion version = true ->
     jsrPattern ("jsr:@" +:+ scope +:+ "/" +:+ pkg +:+ "@" +:+ version)
     = Some {| groupName := "@" +:+ scope +:+ "/" +:+ pkg;
               groupVersion := version; groupSubpath := None |}) /\
  (forall registry s0 g c suffix,
     pattern registry s0 = Some g ->
     groupSubpath g = None ->
     c = "-"%char \/ c = "+"%char ->
     (forall registry', pattern registry' (s0 +:+ String c suffix) = None) /\
     (forall pkg mode st importKey,
        loopBody pkg mode st (importKey, JsonString (s0 +:+ String c suffix)) = inr st)).
Proof.
  split; [|split; [|split]].
  - intros registry s g Hp%pattern_Matches. split.
    + by eapply Matches_version.
    + apply split_length_pos.
  - intros name version Hne Hname Hv. apply npmPattern_complete.
    rewrite <- (str_app_nil_r version) at 1.
    by apply (MatchesNpm name version None).
  - intros scope pkg version Hne Hscope Hne2 Hpkg Hv. apply jsrPattern_complete.
    rewrite <- (str_app_nil_r version) at 1.
    by apply (MatchesJsr scope pkg version None).
  - intros registry s0 g c suffix Hp Hsub Hc.
    assert (Hnone : forall registry', pattern registry' (s0 +:+ String c suffix) = None).
    { intros registry'. eapply suffixed_no_match; eauto; by destruct Hc as [->| ->]. }
    split; [done|].
    intros pkg mode st importKey. rewrite loopBody_entry. simpl.
    by rewrite !processImport_no_match by apply Hnone.
Qed.

Lemma C3_witness :
  (isVersion "4.17.21" = true /\ 1 <= segmentCount "4.17.21") /\
  npmPattern "npm:foo@1.2.3.4" = Some (Scenario.groupsOf "foo" "1.2.3.4") /\
  pattern Npm "npm:lodash@4.17.21-beta.1" = None /\
  pattern Jsr "npm:lodash@4.17.21-beta.1" = None.
Proof.
  destruct C3_embedded_version_shape as (Hshape & Hnpm & _ & Hsuffix).
  split; [|split; [|split]].
  - apply (Hshape Npm "npm:lodash@4.17.21" (Scenario.groupsOf "lodash" "4.17.21")).
    reflexivity.
  - apply (Hnpm "foo" "1.2.3.4"); [discriminate|reflexivity|reflexivity].
  - apply (Hsuffix Npm "npm:lodash@4.17.21" (Scenario.groupsOf "lodash" "4.17.21")
             "-"%char "beta.1"); [reflexivity|reflexivity|by left].
  - apply (Hsuffix Npm "npm:lodash@4.17.21" (Scenario.groupsOf "lodash" "4.17.21")
             "-"%char "beta.1"); [reflexivity|reflexivity|by left].
Defined.

(** C3, as stated, fails: a specifier with four version segments matches
    the npm dialect, and the engine rewrites it. *)
Lemma C3_counterexample_four_segments :
  npmPattern "npm:foo@1.2.3.4" = Some (Scenario.groupsOf "foo" "1.2.3.4") /\
  segmentCount "1.2.3.4" = 4 /\
  processImport "npm:foo@1.2.3.4" Npm Scenario.fooManifest Auto
  = inr (Some {| newImport := "npm:foo@1.2.3.5"; name := "foo";
                 oldVersion := "1.2.3.4"; newVersion := "1.2.3.5" |}).
Proof. vm_compute. done. Qed.

(** ** C7: missing documents *)

(** C7.  When no file exists at the resolved path of the manifest, the
    call throws an error whose message ends with that resolved path;
    when the manifest exists and no file exists at the resolved path of
    the import map, it throws the analogous error naming that path.  In
    both cases, and whenever the call throws at all, the world after the
    call is the world before it: nothing was written and no entry was
    looked at. *)
Theorem C7_missing_document_is_fatal (options : SyncOptions) (w : World) :
  (nodes w !! pkgPathOf options w = None ->
   syncDenoNpmDependencies options w
   = (inl (Error ("package.json not found at: " +:+ Path.render (pkgPathOf options w))), w)) /\
  (is_Some (nodes w !! pkgPathOf options w) ->
   nodes w !! denoPathOf options w = None ->
   syncDenoNpmDependencies options w
   = (inl (Error ("deno.json not found at: " +:+ Path.render (denoPathOf options w))), w)) /\
  (forall e w', syncDenoNpmDependencies options w = (inl e, w') -> w' = w).
Proof.
  split; [|split].
  - apply sync_missing_manifest.
  - apply sync_missing_import_map.
  - intros e w'. apply sync_throw_untouched.
Qed.

Lemma C7_witness :
  syncDenoNpmDependencies Scenario.silentOptions Scenario.noManifestWorld
  = (inl (Error "package.json not found at: /ws/package.json"), Scenario.noManifestWorld).
Proof.
  apply (proj1 (C7_missing_document_is_fatal Scenario.silentOptions Scenario.noManifestWorld)).
  vm_compute. reflexivity.
Defined.

(** ** C8: what a run leaves alone *)

Lemma loopEnd_flag (pkg : PackageJson) (mode : VersionPrecision)
    (entries : list (string * JsonValue)) (st : LoopState) :
  loopEnd pkg mode entries = inr st ->
  stUpdates st = concat (map (entryUpdates pkg mode) entries) /\
  stHasUpdates st = nonEmpty (stUpdates st) /\
  (stHasUpdates st = false -> stImports st = entries).
Proof.
  intros Hst.
  destruct (loop_updates pkg mode entries _ _ Hst) as (H1 & H2 & H3).
  simpl in H1, H2. split; [done|]. split; [by rewrite H1|].
  intros Hf. rewrite Hf in H2. rewrite H3 by done. done.
Qed.

Lemma entry_result_no_match (pkg : PackageJson) (mode : VersionPrecision) (s : string) :
  npmPattern s = None -> jsrPattern s = None ->
  entryResult pkg mode (JsonString s) = inr None.
Proof.
  intros Hn Hj. simpl.
  by rewrite (processImport_no_match s Npm), (processImport_no_match s Jsr).
Qed.

(** C8.  A run that returns with [hasUpdates = false] writes nothing:
    the files and the history of writes are those of before, and this is
    the case exactly when the change list is empty.  An entry whose
    specifier matches neither dialect contributes no change record (the
    change list is that of the other entries), and the import map on
    disk after the run, rewritten or not, holds it at its place with
    its value as it was. *)
Theorem C8_nothing_changed_nothing_written
    (options : SyncOptions) (w w' : World) (r : SyncResult) :
  syncDenoNpmDependencies options w = (inr r, w') ->
  (hasUpdates r = false -> sameDisk w w') /\
  (hasUpdates r = false <-> updates r = []) /\
  (forall pkg deno before importKey s after,
     nodes w !! pkgPathOf options w = Some (File (JsonText pkg)) ->
     nodes w !! denoPathOf options w = Some (File (JsonText deno)) ->
     imports deno = Some (before ++ (importKey, JsonString s) :: after) ->
     distinctKeys (before ++ (importKey, JsonString s) :: after) ->
     npmPattern s = None -> jsrPattern s = None ->
     updates r = concat (map (entryUpdates pkg (modeOf options)) (before ++ after)) /\
     exists deno' entries',
       nodes w' !! denoPathOf options w = Some (File (JsonText deno')) /\
       imports deno' = Some entries' /\
       entries' !! length before = Some (importKey, JsonString s)).
Proof.
  intros (pkg & deno & entries & st & H1 & H2 & H3 & Hst & -> & Hw)%sync_return_inv.
  simpl.
  destruct (loopEnd_flag pkg (modeOf options) entries st Hst) as (Hups & Hflag & Hsame).
  split; [|split].
  - intros Hf. by rewrite Hf in Hw.
  - rewrite Hflag. by destruct (stUpdates _).
  - intros pkg0 deno0 before importKey s after H1' H2' H3' Hkeys Hn Hj.
    rewrite H1 in H1'. injection H1' as <-. rewrite H2 in H2'. injection H2' as <-.
    rewrite H3 in H3'. injection H3' as ->.
    pose proof (entry_result_no_match pkg (modeOf options) s Hn Hj) as He.
    destruct (entry_unchanged pkg (modeOf options) (importKey, JsonString s) He)
      as [Hafter Hnone].
    split.
    + rewrite Hups, !map_app, !concat_app. simpl. by rewrite Hnone.
    + destruct (stHasUpdates _) eqn:Hu.
      * destruct Hw as (_ & Hnodes & _). rewrite Hnodes, lookup_insert_eq.
        eexists _, _. split; [done|]. split; [done|].
        rewrite (loop_spec _ _ _ _ Hkeys Hst). simpl.
        rewrite map_app. simpl. rewrite Hafter.
        rewrite <- (length_map (entryAfter pkg (modeOf options)) before).
        apply list_lookup_middle. done.
      * destruct Hw as (_ & Hnodes & _). rewrite Hnodes, H2.
        eexists _, _. split; [done|]. split; [done|].
        by apply list_lookup_middle.
Qed.

Lemma C8_witness :
  syncDenoNpmDependencies Scenario.silentOptions Scenario.settledWorld
  = (inr {| hasUpdates := false; updates := [] |}, Scenario.settledWorld) /\
  sameDisk Scenario.settledWorld Scenario.settledWorld.
Proof.
  assert (Hrun : syncDenoNpmDependencies Scenario.silentOptions Scenario.settledWorld
                 = (inr {| hasUpdates := false; updates := [] |}, Scenario.settledWorld))
    by (vm_compute; reflexivity).
  split; [exact Hrun|].
  apply (proj1 (C8_nothing_changed_nothing_written _ _ _ _ Hrun)).
  reflexivity.
Defined.

(** ** C9: [resolveVersion] *)

Lemma parseCatalogReference_None (reference : string) :
  startsWith "catalog:" reference = false -> parseCatalogReference reference = None.
Proof. intros H. unfold parseCatalogReference. by rewrite H. Qed.

Lemma parseCatalogReference_Some (reference : string) :
  startsWith "catalog:" reference = true ->
  exists catalogRef, parseCatalogReference reference = Some catalogRef.
Proof. intros H. unfold parseCatalogReference. rewrite H. simpl. eauto. Qed.

Lemma parseCatalogReference_marker (rest : string) :
  parseCatalogReference ("catalog:" +:+ rest)
  = Some {| catalogName := if bool_decide (trim rest = "") then "default" else trim rest |}.
Proof. reflexivity. Qed.

(** C9.  [resolveVersion] returns its input when the input does not
    start with [catalog:].  For an input that does, it returns [null]
    when the detected package manager is not pnpm (or none is detected).
    When pnpm is detected, and only then, it is [resolvePnpmCatalog] on
    the catalog name that follows the marker, trimmed, or on [default]
    when nothing follows: with a workspace document at hand, the lookup
    of the package in the default catalog for the name [default], in
    the named catalog of that name otherwise, so that an entry of the
    selected catalog for the package is the answer.  In the first two
    cases the workspace document is not read at all: the world is as it
    was. *)
Theorem C9_resolveVersion_cases
    (detect : World -> string -> option string)
    (builtinGet : string -> string -> Exception + option Resolved)
    (version packageName workspaceRoot : string) (w : World) :
  (startsWith "catalog:" version = false ->
   resolveVersion detect builtinGet version packageName workspaceRoot w
   = (inr (Some (Range version)), w)) /\
  (startsWith "catalog:" version = true ->
   detect w workspaceRoot <> Some "pnpm" ->
   resolveVersion detect builtinGet version packageName workspaceRoot w = (inr None, w)) /\
  (forall rest,
     version = "catalog:" +:+ rest ->
     detect w workspaceRoot = Some "pnpm" ->
     let selected := if bool_decide (trim rest = "") then "default" else trim rest in
     resolveVersion detect builtinGet version packageName workspaceRoot w
     = resolvePnpmCatalog builtinGet packageName selected workspaceRoot w /\
     forall yaml,
       readPnpmWorkspaceYaml workspaceRoot w = (inr (Some yaml), w) ->
       resolveVersion detect builtinGet version packageName workspaceRoot w
       = (if bool_decide (selected = "default")
          then inr (entryOf (catalog yaml) packageName)
          else namedEntryOf builtinGet (catalogs yaml) selected packageName,
          w) /\
       (forall entries range,
          selected = "default" ->
          catalog yaml = Some entries -> entries !! packageName = Some range ->
          resolveVersion detect builtinGet version packageName workspaceRoot w
          = (inr (Some (Range range)), w)) /\
       (forall named entries range,
          selected <> "default" ->
          catalogs yaml = Some named -> named !! selected = Some entries ->
          entries !! packageName = Some range ->
          resolveVersion detect builtinGet version packageName workspaceRoot w
          = (inr (Some (Range range)), w))).
Proof.
  split; [|split].
  - intros H. unfold resolveVersion. by rewrite parseCatalogReference_None.
  - intros H Hpm. unfold resolveVersion.
    destruct (parseCatalogReference_Some version H) as [catalogRef ->].
    unfold mbind, IO_bind, detectPackageManager.
    by rewrite bool_decide_eq_false_2.
  - intros rest -> Hpm selected.
    assert (Hres : resolveVersion detect builtinGet ("catalog:" +:+ rest) packageName
                     workspaceRoot w
                   = resolvePnpmCatalog builtinGet packageName selected workspaceRoot w).
    { unfold resolveVersion. rewrite parseCatalogReference_marker.
      unfold mbind at 1. unfold IO_bind, detectPackageManager.
      by rewrite bool_decide_eq_true_2. }
    split; [done|].
    intros yaml Hyaml.
    assert (Hlookup : resolveVersion detect builtinGet ("catalog:" +:+ rest) packageName
                        workspaceRoot w
                      = (if bool_decide (selected = "default")
                         then inr (entryOf (catalog yaml) packageName)
                         else namedEntryOf builtinGet (catalogs yaml) selected packageName,
                         w)).
    { rewrite Hres. unfold resolvePnpmCatalog.
      unfold mbind at 1. unfold IO_bind. rewrite Hyaml.
      by case_bool_decide. }
    split; [done|]. split.
    + intros entries range Hsel Hcat Hentry. rewrite Hlookup.
      rewrite bool_decide_eq_true_2 by done. unfold entryOf.
      by rewrite Hcat, (member_own _ _ _ Hentry).
    + intros named entries range Hsel Hcat Hnamed Hentry. rewrite Hlookup.
      rewrite bool_decide_eq_false_2 by done. unfold namedEntryOf, entryOf.
      by rewrite Hcat, (member_own _ _ _ Hnamed), (member_own _ _ _ Hentry).
Qed.

Lemma C9_witness :
  resolveVersion Scenario.pnpmDetected Scenario.builtins "^4.17.21" "lodash" "/ws"
    Scenario.namedCatalogWorld
    = (inr (Some (Range "^4.17.21")), Scenario.namedCatalogWorld) /\
  resolveVersion Scenario.yarnDetected Scenario.builtins "catalog:" "zod" "/ws"
    Scenario.namedCatalogWorld
    = (inr None, Scenario.namedCatalogWorld) /\
  resolveVersion Scenario.pnpmDetected Scenario.builtins "catalog:" "zod" "/ws"
    Scenario.namedCatalogWorld
    = (inr (Some (Range "^3.22.0")), Scenario.namedCatalogWorld) /\
  resolveVersion Scenario.pnpmDetected Scenario.builtins "catalog: prod " "zod" "/ws"
    Scenario.namedCatalogWorld
    = (inr (Some (Range "^3.23.8")), Scenario.namedCatalogWorld).
Proof.
  split; [|split; [|split]].
  - apply (proj1 (C9_resolveVersion_cases Scenario.pnpmDetected Scenario.builtins
                    "^4.17.21" "lodash" "/ws" Scenario.namedCatalogWorld)).
    reflexivity.
  - apply (proj1 (proj2 (C9_resolveVersion_cases Scenario.yarnDetected Scenario.builtins
                           "catalog:" "zod" "/ws" Scenario.namedCatalogWorld))).
    + reflexivity.
    + discriminate.
  - destruct (proj2 (proj2 (C9_resolveVersion_cases Scenario.pnpmDetected Scenario.builtins
                              "catalog:" "zod" "/ws" Scenario.namedCatalogWorld))
                "" eq_refl eq_refl) as (_ & Hlookup).
    destruct (Hlookup Scenario.namedCatalog) as (_ & Hdefault & _).
    { vm_compute. reflexivity. }
    apply (Hdefault {[ "zod" := "^3.22.0" ]} "^3.22.0"); reflexivity.
  - destruct (proj2 (proj2 (C9_resolveVersion_cases Scenario.pnpmDetected Scenario.builtins
                              "catalog: prod " "zod" "/ws" Scenario.namedCatalogWorld))
                " prod " eq_refl eq_refl) as (_ & Hlookup).
    destruct (Hlookup Scenario.namedCatalog) as (_ & _ & Hnamed).
    { vm_compute. reflexivity. }
    apply (Hnamed {[ "prod" := {[ "zod" := "^3.23.8" ]} ]} {[ "zod" := "^3.23.8" ]} "^3.23.8").
    + vm_compute. discriminate.
    + reflexivity.
    + vm_compute. reflexivity.
    + reflexivity.
Defined.

(** ** C10: the walk towards the filesystem root *)

Lemma climb_root (rounds : nat) (w : World) : climb rounds Path.root w = (inr None, w).
Proof. by destruct rounds. Qed.

Lemma climb_step (rounds : nat) (p : list string) (w : World) :
  p <> Path.root ->
  climb (S rounds) p w
  = if bool_decide (is_Some (nodes w !! Path.child p "pnpm-workspace.yaml"))
    then (inr (Some p), w)
    else climb rounds (Path.dirname p) w.
Proof.
  intros Hp. simpl. rewrite bool_decide_eq_false_2 by done.
  unfold mbind, IO_bind, existsSync. by case_bool_decide.
Qed.

Lemma dirname_length (p : list string) :
  p <> Path.root -> S (length (Path.dirname p)) = length p.
Proof.
  intros Hp. unfold Path.dirname.
  destruct (exists_last Hp) as (q & x & ->).
  rewrite removelast_last, length_app. simpl. lia.
Qed.

Lemma dirname_prefix (p : list string) : Path.dirname p `prefix_of` p.
Proof.
  unfold Path.dirname. destruct (decide (p = [])) as [->|Hp]; [done|].
  destruct (exists_last Hp) as (q & x & ->).
  rewrite removelast_last. by apply prefix_app_r.
Qed.

(** The walk ends within as many rounds as the path has segments, with a
    result, and without touching the world. *)
Lemma climb_result (rounds : nat) (p : list string) (w : World) :
  length p <= rounds ->
  exists r,
    climb rounds p w = (inr r, w) /\
    match r with
    | Some d =>
        d <> Path.root /\ d `prefix_of` p /\
        is_Some (nodes w !! Path.child d "pnpm-workspace.yaml")
    | None =>
        forall d, d <> Path.root -> d `prefix_of` p ->
                  nodes w !! Path.child d "pnpm-workspace.yaml" = None
    end.
Proof.
  revert p. induction rounds as [|rounds IH]; intros p Hlen.
  - destruct p; [|simpl in Hlen; lia]. exists None. split; [done|].
    intros d Hd Hpre. apply prefix_nil_inv in Hpre. done.
  - destruct (decide (p = Path.root)) as [->|Hp].
    + exists None. split; [apply climb_root|].
      intros d Hd Hpre. apply prefix_nil_inv in Hpre. done.
    + rewrite climb_step by done. case_bool_decide as Hfound.
      * exists (Some p). done.
      * pose proof (dirname_length p Hp) as Hl.
        destruct (IH (Path.dirname p) ltac:(lia)) as (r & -> & Hr).
        exists r. split; [done|]. destruct r as [d|].
        -- destruct Hr as (Hd & Hpre & Hex). split; [done|]. split; [|done].
           etransitivity; [exact Hpre|apply dirname_prefix].
        -- intros d Hd Hpre.
           destruct (decide (d = p)) as [->|Hne].
           ++ destruct (nodes w !! _) eqn:E; [|done]. exfalso. apply Hfound. eauto.
           ++ apply Hr; [done|]. unfold Path.dirname.
              destruct (exists_last Hp) as (q & x & ->). rewrite removelast_last.
              destruct Hpre as [k Hk].
              destruct (exists_last (l:=k)) as (k' & y & ->).
              { intros ->. rewrite app_nil_r in Hk. done. }
              rewrite app_assoc in Hk. apply app_inj_tail in Hk as [-> _].
              by apply prefix_app_r.
Qed.

Lemma climb_ignores_root_document (f : option Node -> option Node)
    (rounds : nat) (p : list string) (w : World) :
  (climb rounds p (alterRootDocument f w)).1 = (climb rounds p w).1.
Proof.
  revert p. induction rounds as [|rounds IH]; intros p.
  - simpl. by case_bool_decide.
  - destruct (decide (p = Path.root)) as [->|Hp].
    + by rewrite !climb_root.
    + rewrite !climb_step by done. simpl.
      rewrite lookup_partial_alter_ne.
      * case_bool_decide; [done|]. apply IH.
      * unfold Path.child, Path.root. simpl. intros Heq.
        destruct p as [|x [|y p]]; simplify_eq.
Qed.

(** C10.  [findWorkspaceRoot] returns, leaves the world as it was, and
    never answers the filesystem root directory; its answer does not
    depend on what the root directory holds under the name of the
    workspace document, which it never looks up.  So, when no directory
    from the start path up to, but not including, the root holds the
    document, the answer is [null], also when the root directory holds
    one. *)
Theorem C10_filesystem_root_never_tested (startPath : string) (w : World) :
  (exists r, findWorkspaceRoot startPath w = (inr r, w) /\ r <> Some Path.root) /\
  (forall f,
     (findWorkspaceRoot startPath (alterRootDocument f w)).1
     = (findWorkspaceRoot startPath w).1) /\
  ((forall d, d <> Path.root -> d `prefix_of` Path.resolve (cwd w) startPath ->
              nodes w !! Path.child d "pnpm-workspace.yaml" = None) ->
   findWorkspaceRoot startPath w = (inr None, w)).
Proof.
  unfold findWorkspaceRoot, mbind, IO_bind, pathResolve. simpl.
  destruct (climb_result (length (Path.resolve (cwd w) startPath))
              (Path.resolve (cwd w) startPath) w ltac:(lia)) as (r & Hr & Hspec).
  split; [|split].
  - exists r. split; [done|]. destruct r as [d|]; [|done].
    destruct Hspec as (Hd & _). congruence.
  - intros f. apply climb_ignores_root_document.
  - intros Hnone. rewrite Hr. destruct r as [d|]; [|done].
    destruct Hspec as (Hd & Hpre & Hex). rewrite Hnone in Hex by done.
    by destruct Hex.
Qed.

Lemma C10_witness :
  is_Some (nodes Scenario.rootDocumentWorld !! Path.child Path.root "pnpm-workspace.yaml") /\
  findWorkspaceRoot "src" Scenario.rootDocumentWorld = (inr None, Scenario.rootDocumentWorld).
Proof.
  split.
  - vm_compute. eauto.
  - apply (proj2 (proj2 (C10_filesystem_root_never_tested "src" Scenario.rootDocumentWorld))).
    intros d Hd Hpre. apply lookup_singleton_ne.
    intros Heq. apply Hd. unfold Path.child in Heq.
    destruct d as [|x [|y d]]; simplify_eq.
Defined.

(** ** C5: running the engine again *)

Lemma processImport_same_sections (s : string) (registry : Registry)
    (pkg pkg' : PackageJson) (mode : VersionPrecision) :
  dependencies pkg' = dependencies pkg ->
  devDependencies pkg' = devDependencies pkg ->
  processImport s registry pkg' mode = processImport s registry pkg mode.
Proof.
  intros H1 H2. rewrite !processImport_unfold. unfold candidate. by rewrite H1, H2.
Qed.

Lemma entryResult_same_sections (pkg pkg' : PackageJson) (mode : VersionPrecision)
    (v : JsonValue) :
  dependencies pkg' = dependencies pkg ->
  devDependencies pkg' = devDependencies pkg ->
  entryResult pkg' mode v = entryResult pkg mode v.
Proof.
  intros H1 H2. destruct v as [s|t]; [|done]. simpl.
  by rewrite !(processImport_same_sections s _ pkg pkg').
Qed.

Lemma entry_settled (pkg : PackageJson) (mode : VersionPrecision) (e : string * JsonValue) :
  slashFree pkg ->
  entryReturns pkg mode e ->
  entryResult pkg mode (entryAfter pkg mode e).2 = inr None.
Proof.
  intros Hclean [r0 Hr0]. unfold entryAfter. rewrite Hr0.
  destruct r0 as [r|]; [|done].
  destruct e as [k [s|t]]; [|done]. simpl in *.
  assert (Hr : exists registry, processImport s registry pkg mode = inr (Some r)).
  { destruct (processImport s Npm pkg mode) as [x|[r'|]] eqn:En; [done| |].
    - injection Hr0 as <-. by exists Npm.
    - by exists Jsr. }
  destruct Hr as [registry Hr].
  rewrite !(processImport_settled s registry _ pkg mode r); try done.
  all: intros c; apply Hclean.
Qed.

Lemma loopEnd_settled (pkg : PackageJson) (mode : VersionPrecision)
    (entries : list (string * JsonValue)) :
  slashFree pkg ->
  Forall (entryReturns pkg mode) entries ->
  loopEnd pkg mode (map (entryAfter pkg mode) entries)
  = inr {| stImports := map (entryAfter pkg mode) entries;
           stUpdates := []; stHasUpdates := false |}.
Proof.
  intros Hclean Hall.
  assert (Hnone : Forall (fun e => entryResult pkg mode e.2 = inr None)
                    (map (entryAfter pkg mode) entries)).
  { apply Forall_map. eapply Forall_impl; [exact Hall|].
    intros e He. by apply entry_settled. }
  unfold loopEnd.
  destruct (loop_completes pkg mode (map (entryAfter pkg mode) entries)
              {| stImports := map (entryAfter pkg mode) entries;
                 stUpdates := []; stHasUpdates := false |}) as [st' Hst'].
  { eapply Forall_impl; [exact Hnone|]. intros e He. by exists None. }
  rewrite Hst'. f_equal.
  apply (loop_updates _ _ _ _ _ Hst').
  clear Hst'. induction Hnone as [|e l He _ IH]; [done|]. simpl.
  by destruct (entry_unchanged pkg mode e He) as [_ ->].
Qed.

Lemma loopBody_same_sections (pkg pkg' : PackageJson) (mode : VersionPrecision)
    (entries : list (string * JsonValue)) :
  dependencies pkg' = dependencies pkg ->
  devDependencies pkg' = devDependencies pkg ->
  loopEnd pkg' mode entries = loopEnd pkg mode entries.
Proof.
  intros H1 H2. unfold loopEnd.
  generalize {| stImports := entries; stUpdates := []; stHasUpdates := false |}.
  induction entries as [|e entries IH]; intros st; [done|]. simpl.
  rewrite !loopBody_entry, (entryResult_same_sections pkg pkg') by done.
  destruct (entryResult pkg mode e.2) as [x|[r|]]; [done|apply IH..].
Qed.

(** C5, as the code has it.  Take a run that returns, on a world whose
    import map has distinct keys (as the properties of a JavaScript
    object have) and whose manifest has no candidate version holding a
    [/].  Then a second run with the same options on the world the
    first one left returns [hasUpdates = false] with no change record,
    and leaves the files and the history of writes as the first run
    left them. *)
Theorem C5_second_run_changes_nothing
    (options : SyncOptions) (w w1 : World) (r1 : SyncResult) :
  syncDenoNpmDependencies options w = (inr r1, w1) ->
  (forall deno entries,
     nodes w !! denoPathOf options w = Some (File (JsonText deno)) ->
     imports deno = Some entries -> distinctKeys entries) ->
  (forall pkg,
     nodes w !! pkgPathOf options w = Some (File (JsonText pkg)) -> slashFree pkg) ->
  exists w2,
    syncDenoNpmDependencies options w1
    = (inr {| hasUpdates := false; updates := [] |}, w2) /\
    sameDisk w1 w2.
Proof.
  intros (pkg & deno & entries & st & H1 & H2 & H3 & Hst & _ & Hw)%sync_return_inv
    Hkeys Hclean.
  specialize (Hkeys deno entries H2 H3). specialize (Hclean pkg H1).
  destruct (loopEnd_flag pkg (modeOf options) entries st Hst) as (Hups & Hflag & Hsame).
  pose proof (loop_returns _ _ _ _ _ Hst) as Hall.
  destruct (stHasUpdates st) eqn:Hu.
  - destruct Hw as (Hcwd & Hnodes & _).
    assert (Hafter : stImports st = map (entryAfter pkg (modeOf options)) entries).
    { by rewrite (loop_spec _ _ _ _ Hkeys Hst). }
    rewrite Hafter in Hnodes.
    set (deno' := withImports deno (map (entryAfter pkg (modeOf options)) entries)) in *.
    assert (Hp : pkgPathOf options w1 = pkgPathOf options w)
      by (unfold pkgPathOf; by rewrite Hcwd).
    assert (Hd : denoPathOf options w1 = denoPathOf options w)
      by (unfold denoPathOf; by rewrite Hcwd).
    assert (H2' : nodes w1 !! denoPathOf options w1 = Some (File (JsonText deno'))).
    { by rewrite Hd, Hnodes, lookup_insert_eq. }
    assert (H1' : exists pkg', nodes w1 !! pkgPathOf options w1 = Some (File (JsonText pkg'))
                    /\ dependencies pkg' = dependencies pkg
                    /\ devDependencies pkg' = devDependencies pkg).
    { rewrite Hp, Hnodes.
      destruct (decide (denoPathOf options w = pkgPathOf options w)) as [Heq|Hne].
      - rewrite Heq, lookup_insert_eq. exists deno'.
        rewrite Heq, H1 in H2. injection H2 as ->. done.
      - rewrite lookup_insert_ne by done. by exists pkg. }
    destruct H1' as (pkg' & H1' & Hdeps & Hdev).
    assert (Hst2 : loopEnd pkg' (modeOf options) (map (entryAfter pkg (modeOf options)) entries)
                   = inr {| stImports := map (entryAfter pkg (modeOf options)) entries;
                            stUpdates := []; stHasUpdates := false |}).
    { rewrite (loopBody_same_sections pkg pkg') by done. by apply loopEnd_settled. }
    destruct (sync_run options w1 pkg' deno' _ _ H1' H2' eq_refl Hst2) as (w2 & Hrun2 & Hw2).
    simpl in Hrun2, Hw2. by exists w2.
  - destruct Hw as (Hcwd & Hnodes & _).
    assert (Hp : pkgPathOf options w1 = pkgPathOf options w)
      by (unfold pkgPathOf; by rewrite Hcwd).
    assert (Hd : denoPathOf options w1 = denoPathOf options w)
      by (unfold denoPathOf; by rewrite Hcwd).
    rewrite <- Hnodes, <- Hp in H1. rewrite <- Hnodes, <- Hd in H2.
    destruct (sync_run options w1 pkg deno entries st H1 H2 H3 Hst) as (w2 & Hrun2 & Hw2).
    rewrite Hu in Hrun2, Hw2.
    rewrite Hflag in Hu. destruct (stUpdates st); [|done].
    by exists w2.
Qed.

Lemma lodashManifest_slashFree : slashFree Scenario.lodashManifest.
Proof.
  intros name c. unfold candidate, declared, member. simpl.
  destruct (decide (name = "lodash")) as [->|Hne].
  - vm_compute. by intros [= <-].
  - rewrite lookup_singleton_ne by done. by destruct (inheritedKey name).
Qed.

Lemma C5_witness :
  exists w2,
    syncDenoNpmDependencies Scenario.silentOptions
      (syncDenoNpmDependencies Scenario.silentOptions Scenario.staleWorld).2
    = (inr {| hasUpdates := false; updates := [] |}, w2) /\
    sameDisk (syncDenoNpmDependencies Scenario.silentOptions Scenario.staleWorld).2 w2.
Proof.
  apply (C5_second_run_changes_nothing Scenario.silentOptions Scenario.staleWorld
           (syncDenoNpmDependencies Scenario.silentOptions Scenario.staleWorld).2
           {| hasUpdates := true; updates := [Update.mk "lodash" "4.17.0" "4.17.21"] |}).
  - vm_compute. reflexivity.
  - intros deno entries Hdeno Himports.
    change (denoPathOf Scenario.silentOptions Scenario.staleWorld) with Scenario.denoPath in Hdeno.
    unfold Scenario.staleWorld, Scenario.worldOf in Hdeno. simpl in Hdeno.
    rewrite lookup_insert_ne, lookup_singleton_eq in Hdeno by done.
    injection Hdeno as <-. injection Himports as <-.
    unfold distinctKeys. simpl. apply NoDup_singleton.
  - intros pkg Hpkg.
    change (pkgPathOf Scenario.silentOptions Scenario.staleWorld) with Scenario.pkgPath in Hpkg.
    unfold Scenario.staleWorld, Scenario.worldOf in Hpkg. simpl in Hpkg.
    rewrite lookup_insert_eq in Hpkg. injection Hpkg as <-.
    apply lodashManifest_slashFree.
Defined.

(** C5, as stated, fails: with a manifest that declares a package by a
    path, the first run writes a specifier that the second run reads as
    a shorter version with a subpath, and rewrites again. *)
Lemma C5_counterexample_path_range :
  (syncDenoNpmDependencies Scenario.silentOptions Scenario.pathRangeWorld).1
  = inr {| hasUpdates := true; updates := [Update.mk "foo" "1.0.0" "2/bar"] |} /\
  nodes (syncDenoNpmDependencies Scenario.silentOptions Scenario.pathRangeWorld).2
    !! Scenario.denoPath
  = Some (File (JsonText (Scenario.importMapOf [("foo", JsonString "npm:foo@2/bar")]))) /\
  (syncDenoNpmDependencies Scenario.silentOptions
     (syncDenoNpmDependencies Scenario.silentOptions Scenario.pathRangeWorld).2).1
  = inr {| hasUpdates := true; updates := [Update.mk "foo" "2" "2/bar"] |} /\
  nodes (syncDenoNpmDependencies Scenario.silentOptions
           (syncDenoNpmDependencies Scenario.silentOptions Scenario.pathRangeWorld).2).2
    !! Scenario.denoPath
  = Some (File (JsonText (Scenario.importMapOf [("foo", JsonString "npm:foo@2/bar/bar")]))).
Proof. vm_compute. done. Qed.

(** ** C1 and C2: catalog references in the manifest *)

(** C1.  On scenario 1 the engine does not return the change
    3.21.0 -> 3.22.0: [processImport] never consults the catalog
    resolver, strips the reference [catalog:] down to the empty string
    and writes the specifier [npm:zod@], although [resolveVersion]
    resolves the reference to [^3.22.0] in that very world. *)
Theorem C1_scenario_1_as_coded :
  (syncDenoNpmDependencies Scenario.defaultOptions Scenario.catalogWorld).1
  = inr {| hasUpdates := true; updates := [Update.mk "zod" "3.21.0" ""] |} /\
  nodes (syncDenoNpmDependencies Scenario.defaultOptions Scenario.catalogWorld).2
    !! Scenario.denoPath
  = Some (File (JsonText (Scenario.importMapOf [("zod", JsonString "npm:zod@")]))) /\
  (resolveVersion Scenario.pnpmDetected Scenario.builtins "catalog:" "zod" "/ws"
     Scenario.catalogWorld).1
  = inr (Some (Range "^3.22.0")).
Proof. vm_compute. done. Qed.

(** C2.  A catalog reference that cannot be resolved (here: no
    workspace document, [resolveVersion] answers [null]) does not leave
    its entry alone: the engine records a change to the empty version
    and writes [npm:zod@].  It does go on to the next entry. *)
Theorem C2_unresolved_reference_as_coded :
  (resolveVersion Scenario.pnpmDetected Scenario.builtins "catalog:" "zod" "/ws"
     Scenario.unresolvedWorld).1
  = inr None /\
  (syncDenoNpmDependencies Scenario.silentOptions Scenario.unresolvedWorld).1
  = inr {| hasUpdates := true;
           updates := [Update.mk "zod" "3.21.0" ""; Update.mk "lodash" "4.17.0" "4.17.21"] |} /\
  nodes (syncDenoNpmDependencies Scenario.silentOptions Scenario.unresolvedWorld).2
    !! Scenario.denoPath
  = Some (File (JsonText (Scenario.importMapOf
                            [("zod", JsonString "npm:zod@");
                             ("lodash", JsonString "npm:lodash@4.17.21")]))).
Proof. vm_compute. done. Qed.

(** * Further properties of the code *)

Import More.

(** ** [formatVersion], [detectVersionPrecision] and the candidate *)

Lemma formatVersion_keepSegments (v : string) (n : nat) :
  formatVersion v n = keepSegments n v.
Proof. reflexivity. Qed.

(** X1.  [formatVersion] never pads: asked for at least as many segments
    as the version has, it returns the version as it is. *)
Theorem formatVersion_no_padding (version : string) (precision : nat) :
  detectVersionPrecision version <= precision ->
  formatVersion version precision = version.
Proof.
  intros H. unfold formatVersion, detectVersionPrecision, slice0 in *.
  rewrite take_ge by done. apply join_split.
Qed.

Lemma formatVersion_no_padding_witness :
  detectVersionPrecision "4.17" <= 3 /\ formatVersion "4.17" 3 = "4.17".
Proof.
  split; [vm_compute; lia|].
  apply (formatVersion_no_padding "4.17" 3). vm_compute. lia.
Defined.

(** X2.  Asked for one segment or more, [formatVersion] returns a version
    with that many segments, or with all those of its argument when it
    has fewer.  Asked for none, it returns the empty string, which
    [detectVersionPrecision] counts as one segment. *)
Theorem formatVersion_precision (version : string) (precision : nat) :
  (1 <= precision ->
   detectVersionPrecision (formatVersion version precision)
   = precision `min` detectVersionPrecision version) /\
  formatVersion version 0 = "" /\
  detectVersionPrecision (formatVersion version 0) = 1.
Proof.
  split; [|done].
  intros H. unfold detectVersionPrecision. rewrite formatVersion_keepSegments.
  rewrite split_keepSegments by done. apply length_take.
Qed.

Lemma formatVersion_precision_witness :
  detectVersionPrecision (formatVersion "5.4.5" 2) = 2 /\
  detectVersionPrecision (formatVersion "5" 2) = 1.
Proof.
  split.
  - apply (proj1 (formatVersion_precision "5.4.5" 2)). lia.
  - apply (proj1 (formatVersion_precision "5" 2)). lia.
Defined.

(** X3.  Formatting twice is formatting once at the smaller precision. *)
Theorem formatVersion_twice (version : string) (n m : nat) :
  1 <= n -> 1 <= m ->
  formatVersion (formatVersion version n) m = formatVersion version (n `min` m).
Proof.
  intros Hn Hm. rewrite !formatVersion_keepSegments.
  unfold keepSegments at 1. rewrite split_keepSegments by done.
  unfold keepSegments. by rewrite take_take, Nat.min_comm.
Qed.

Lemma formatVersion_twice_witness :
  formatVersion (formatVersion "1.2.3" 2) 3 = formatVersion "1.2.3" (2 `min` 3).
Proof. apply (formatVersion_twice "1.2.3" 2 3); lia. Defined.

Lemma strip_all_non_digits (p : string) :
  allChars notDigit p = true -> replaceLeadingNonDigits p = "".
Proof.
  induction p as [|c p IH]; [done|]. simpl.
  intros [Hc Hp]%andb_true_iff. apply negb_true_iff in Hc. rewrite Hc. auto.
Qed.

(** X4.  What [replace(/^\D*/u, '')] leaves is empty or starts with a
    digit, and a range made of a digit-free operator followed by a
    version loses exactly the operator. *)
Theorem replaceLeadingNonDigits_strips_operator :
  (forall range, digitFirst (replaceLeadingNonDigits range)) /\
  (forall operator version,
     allChars notDigit operator = true -> digitFirst version ->
     replaceLeadingNonDigits (operator +:+ version) = version).
Proof.
  split.
  - intros range. induction range as [|c r IH]; [done|]. simpl.
    destruct (isDigit c) eqn:Hc; [|done]. simpl. done.
  - intros operator version Hop Hv. induction operator as [|c p IH].
    + destruct version as [|d v]; [done|]. simpl in *. by rewrite Hv.
    + simpl in Hop. apply andb_true_iff in Hop as [Hc Hp]. apply negb_true_iff in Hc.
      rewrite str_app_cons. simpl. rewrite Hc. auto.
Qed.

Lemma replaceLeadingNonDigits_strips_operator_witness :
  replaceLeadingNonDigits (">=" +:+ "4.17.21") = "4.17.21".
Proof.
  apply (proj2 replaceLeadingNonDigits_strips_operator ">=" "4.17.21"); reflexivity.
Defined.

(** ** [processImport] *)

Lemma str_length_app (a b : string) :
  String.length (a +:+ b) = String.length a + String.length b.
Proof. induction a as [|c a IH]; [done|]. rewrite str_app_cons. simpl. by rewrite IH. Qed.

Lemma str_app_inv_l (a x y : string) : a +:+ x = a +:+ y -> x = y.
Proof.
  induction a as [|c a IH]; [done|]. rewrite !str_app_cons. intros [= H]. auto.
Qed.

Lemma str_app_inv_r (x y b : string) : x +:+ b = y +:+ b -> x = y.
Proof.
  revert y. induction x as [|c x IH]; intros [|d y] H.
  - done.
  - apply (f_equal String.length) in H. rewrite !str_length_app in H. simpl in H. lia.
  - apply (f_equal String.length) in H. rewrite !str_length_app in H. simpl in H. lia.
  - rewrite !str_app_cons in H. injection H as -> H. by rewrite (IH y H).
Qed.

Lemma Matches_rebuilt (registry : Registry) (s : string) (g : Groups) :
  Matches registry s g -> s = rebuilt registry g (groupVersion g).
Proof.
  destruct 1; unfold rebuilt; simpl; rewrite ?str_app_assoc; reflexivity.
Qed.

Lemma rebuilt_inj (registry : Registry) (g : Groups) (v v' : string) :
  rebuilt registry g v = rebuilt registry g v' -> v = v'.
Proof.
  unfold rebuilt. intros H.
  do 4 apply str_app_inv_l in H. by apply str_app_inv_r in H.
Qed.

(** X5.  Every result of [processImport] is a real change: the new
    version differs from the old one and the new specifier differs from
    the one that was read. *)
Theorem processImport_result_differs
    (denoImport : string) (registry : Registry) (pkg : PackageJson)
    (mode : VersionPrecision) (r : ImportResult) :
  processImport denoImport registry pkg mode = inr (Some r) ->
  newVersion r <> oldVersion r /\ newImport r <> denoImport.
Proof.
  intros (g & c & Hp & Hc & Hne & Hfinal & ->)%processImport_Some. simpl.
  split; [done|].
  apply pattern_Matches, Matches_rebuilt in Hp. intros H. rewrite Hp in H.
  by apply rebuilt_inj in H.
Qed.

Lemma processImport_result_differs_witness :
  "npm:typescript@5.0.0" <> "npm:typescript@4.9.0".
Proof.
  apply (processImport_result_differs "npm:typescript@4.9.0" Npm
           Scenario.typescriptManifest Auto
           {| newImport := "npm:typescript@5.0.0"; name := "typescript";
              oldVersion := "4.9.0"; newVersion := "5.0.0" |}).
  vm_compute. reflexivity.
Defined.

(** X6.  An entry whose embedded version is the candidate that the
    manifest yields is left alone in every precision mode, [Major] and
    [Minor] included: the comparison with the candidate comes before
    the precision is applied, so such an entry is not shortened. *)
Theorem in_sync_entry_is_not_shortened
    (s : string) (registry : Registry) (pkg : PackageJson) (g : Groups) :
  pattern registry s = Some g ->
  candidate pkg (groupName g) = inr (Some (groupVersion g)) ->
  forall mode,
    processImport s registry pkg mode = inr None /\
    forall st importKey, loopBody pkg mode st (importKey, JsonString s) = inr st.
Proof.
  intros Hp Hc mode.
  assert (Hnone : processImport s registry pkg mode = inr None).
  { rewrite processImport_unfold, Hp, Hc. by rewrite bool_decide_eq_true_2. }
  split; [done|]. intros st importKey. rewrite loopBody_entry.
  change ((importKey, JsonString s).2) with (JsonString s).
  by rewrite (entryResult_matched _ _ _ _ _ Hp), Hnone.
Qed.

Lemma in_sync_entry_is_not_shortened_witness :
  finalVersionSpec Major "4.17.21" "4.17.21" = "4" /\
  processImport "npm:lodash@4.17.21" Npm Scenario.lodashManifest Major = inr None.
Proof.
  split; [reflexivity|].
  apply (in_sync_entry_is_not_shortened "npm:lodash@4.17.21" Npm Scenario.lodashManifest
           (Scenario.groupsOf "lodash" "4.17.21")).
  - reflexivity.
  - vm_compute. reflexivity.
Defined.

Lemma keepSegments_one_no_dot (v : string) : allChars notDot (keepSegments 1 v) = true.
Proof.
  unfold keepSegments. pose proof (split_segments "." v) as H.
  destruct (split_nonempty "." v) as (h & t & E). rewrite E in H |- *.
  apply Forall_cons in H as [Hh _]. exact Hh.
Qed.

(** X7.  The precision of a result is bounded by the mode: no dot in
    [Major] mode, two segments at most in [Minor] mode, no more segments
    than the version it replaces in [Auto] mode. *)
Theorem result_precision_bounded
    (denoImport : string) (registry : Registry) (pkg : PackageJson)
    (mode : VersionPrecision) (r : ImportResult) :
  processImport denoImport registry pkg mode = inr (Some r) ->
  match mode with
  | Major => allChars notDot (newVersion r) = true
  | Minor => detectVersionPrecision (newVersion r) <= 2
  | Auto => detectVersionPrecision (newVersion r) <= detectVersionPrecision (oldVersion r)
  | Full => candidate pkg (name r) = inr (Some (newVersion r))
  end.
Proof.
  intros (g & c & Hp & Hc & Hne & Hfinal & ->)%processImport_Some. simpl.
  destruct mode; simpl.
  - unfold detectVersionPrecision.
    rewrite split_keepSegments by apply split_length_pos.
    rewrite length_take. unfold segmentCount. lia.
  - apply keepSegments_one_no_dot.
  - unfold detectVersionPrecision. rewrite split_keepSegments by lia.
    rewrite length_take. lia.
  - done.
Qed.

Lemma result_precision_bounded_witness :
  detectVersionPrecision "5.4" <= 2.
Proof.
  apply (result_precision_bounded "npm:typescript@5.0.0" Npm
           (Scenario.manifestOf (Some {[ "typescript" := "^5.4.5" ]}) None) Minor
           {| newImport := "npm:typescript@5.4"; name := "typescript";
              oldVersion := "5.0.0"; newVersion := "5.4" |}).
  vm_compute. reflexivity.
Defined.

Lemma isVersion_keepSegments (n : nat) (c : string) :
  1 <= n -> isVersion c = true -> isVersion (keepSegments n c) = true.
Proof.
  intros Hn Hc. unfold isVersion in *. rewrite split_keepSegments by done.
  apply forallb_Forall, Forall_take. by apply forallb_Forall.
Qed.

Lemma isVersion_finalVersionSpec (mode : VersionPrecision) (c v : string) :
  isVersion c = true -> isVersion (finalVersionSpec mode c v) = true.
Proof.
  intros Hc. destruct mode; simpl; try done; apply isVersion_keepSegments; try done; try lia.
  apply split_length_pos.
Qed.

Lemma Matches_rebuilt_version (registry : Registry) (s : string) (g : Groups) (v : string) :
  Matches registry s g -> isVersion v = true ->
  Matches registry (rebuilt registry g v)
    {| groupName := groupName g; groupVersion := v; groupSubpath := groupSubpath g |}.
Proof.
  intros Hm Hv. destruct Hm; unfold rebuilt; simpl.
  - by apply MatchesNpm.
  - rewrite !str_app_assoc. by apply (MatchesJsr scope pkg v subpath).
Qed.

(** X8.  When the candidate is a version (dot-separated integers), the
    specifier that [processImport] builds is again one of the dialect,
    with the name and the subpath of the one it read and with the new
    version. *)
Theorem rewritten_specifier_reads_back
    (denoImport : string) (registry : Registry) (pkg : PackageJson)
    (mode : VersionPrecision) (r : ImportResult) :
  processImport denoImport registry pkg mode = inr (Some r) ->
  (forall c, candidate pkg (name r) = inr (Some c) -> isVersion c = true) ->
  exists g,
    pattern registry denoImport = Some g /\
    pattern registry (newImport r)
    = Some {| groupName := groupName g; groupVersion := newVersion r;
              groupSubpath := groupSubpath g |}.
Proof.
  intros (g & c & Hp & Hc & Hne & Hfinal & ->)%processImport_Some Hver. simpl in *.
  exists g. split; [done|].
  apply pattern_Matches. apply (Matches_rebuilt_version registry denoImport).
  - by apply pattern_Matches.
  - apply isVersion_finalVersionSpec. by apply Hver.
Qed.

Lemma lodashManifest_versions (name c : string) :
  candidate Scenario.lodashManifest name = inr (Some c) -> isVersion c = true.
Proof.
  unfold candidate, declared, member. simpl.
  destruct (decide (name = "lodash")) as [->|Hne].
  - vm_compute. by intros [= <-].
  - rewrite lookup_singleton_ne by done. by destruct (inheritedKey name).
Qed.

Lemma rewritten_specifier_reads_back_witness :
  exists g,
    pattern Npm "npm:lodash@4.17.0/fp" = Some g /\
    pattern Npm "npm:lodash@4.17.21/fp"
    = Some {| groupName := groupName g; groupVersion := "4.17.21";
              groupSubpath := groupSubpath g |}.
Proof.
  apply (rewritten_specifier_reads_back "npm:lodash@4.17.0/fp" Npm Scenario.lodashManifest Auto
           {| newImport := "npm:lodash@4.17.21/fp"; name := "lodash";
              oldVersion := "4.17.0"; newVersion := "4.17.21" |}).
  - vm_compute. reflexivity.
  - intros c. apply lodashManifest_versions.
Defined.

Lemma keepSegments_empty (n : nat) : 1 <= n -> keepSegments n "" = "".
Proof. destruct n; [lia|]. intros _. by destruct n. Qed.

Lemma finalVersionSpec_empty (mode : VersionPrecision) (v : string) :
  finalVersionSpec mode "" v = "".
Proof.
  destruct mode; simpl; try done; apply keepSegments_empty; try lia.
  apply split_length_pos.
Qed.

(** X9.  A range without any digit (a tag, a star, a workspace or
    catalog marker) that the lookup finds, in the development section
    or, when that one yields nothing, in the regular section, has the
    empty string as candidate, and a matching entry of that package is
    then rewritten with an empty version, in every precision mode. *)
Theorem digit_free_range_empties_the_version
    (s : string) (registry : Registry) (pkg : PackageJson) (mode : VersionPrecision)
    (g : Groups) (range : string) :
  pattern registry s = Some g ->
  member (devDependencies pkg) (groupName g) = Own range \/
  (member (devDependencies pkg) (groupName g) = Undefined /\
   member (dependencies pkg) (groupName g) = Own range) ->
  allChars notDigit range = true ->
  candidate pkg (groupName g) = inr (Some "") /\
  processImport s registry pkg mode
  = inr (Some {| newImport := registryPrefix registry +:+ ":" +:+ groupName g +:+ "@"
                                +:+ default "" (groupSubpath g);
                 name := groupName g; oldVersion := groupVersion g; newVersion := "" |}).
Proof.
  intros Hp Hdecl Hrange.
  assert (Hc : candidate pkg (groupName g) = inr (Some "")).
  { unfold candidate, declared.
    destruct Hdecl as [->|[-> ->]]; simpl; by rewrite strip_all_non_digits. }
  split; [done|].
  rewrite processImport_unfold, Hp, Hc.
  assert (Hne : groupVersion g <> "").
  { apply isVersion_nonempty. apply pattern_Matches in Hp. by eapply Matches_version. }
  rewrite bool_decide_eq_false_2 by done. simpl.
  rewrite finalVersionSpec_empty. rewrite bool_decide_eq_false_2 by done.
  reflexivity.
Qed.

Lemma digit_free_range_empties_the_version_witness :
  processImport "npm:react@18.2.0/jsx-runtime" Npm
    (Scenario.manifestOf (Some {[ "react" := "latest" ]}) (Some {[ "vitest" := "^1.0.0" ]})) Full
  = inr (Some {| newImport := "npm:react@/jsx-runtime"; name := "react";
                 oldVersion := "18.2.0"; newVersion := "" |}).
Proof.
  apply (digit_free_range_empties_the_version "npm:react@18.2.0/jsx-runtime" Npm
           (Scenario.manifestOf (Some {[ "react" := "latest" ]}) (Some {[ "vitest" := "^1.0.0" ]}))
           Full
           {| groupName := "react"; groupVersion := "18.2.0";
              groupSubpath := Some "/jsx-runtime" |} "latest").
  - reflexivity.
  - right. split; vm_compute; reflexivity.
  - reflexivity.
Defined.

(** X10.  The npm pattern takes no scoped package and the JSR pattern no
    unscoped one: a specifier that starts with [npm:@], and one that
    starts with [jsr:] and goes on with anything but [@], match neither
    pattern, so the engine never touches them. *)
Theorem scoped_npm_and_unscoped_jsr_never_match :
  (forall rest registry, pattern registry ("npm:@" +:+ rest) = None) /\
  (forall rest registry,
     startsWith "@" rest = false -> pattern registry ("jsr:" +:+ rest) = None) /\
  (forall s pkg mode st importKey,
     npmPattern s = None -> jsrPattern s = None ->
     loopBody pkg mode st (importKey, JsonString s) = inr st).
Proof.
  split; [|split].
  - intros rest [|]; reflexivity.
  - intros rest [|] H; [reflexivity|].
    simpl. unfold jsrPattern.
    destruct rest as [|c rest]; [reflexivity|].
    str_norm H. simpl in H. unfold startsWith in H. simpl in H.
    change (stripPrefix "jsr:@" ("jsr:" +:+ String c rest))
      with (if charEqb "@" c then Some rest else None).
    by destruct (charEqb "@" c).
  - intros s pkg mode st importKey Hn Hj. rewrite loopBody_entry. simpl.
    by rewrite (processImport_no_match s Npm), (processImport_no_match s Jsr).
Qed.

Lemma scoped_npm_and_unscoped_jsr_never_match_witness :
  pattern Npm "npm:@types/node@20.0.0" = None /\
  pattern Jsr "jsr:oak@1.0.0" = None.
Proof.
  destruct scoped_npm_and_unscoped_jsr_never_match as (Hnpm & Hjsr & _).
  split.
  - apply (Hnpm "types/node@20.0.0" Npm).
  - apply (Hjsr "oak@1.0.0" Jsr). reflexivity.
Defined.

(** X21.  The development section decides.  When it declares the
    package of a matching entry, the candidate is that declaration
    without its leading non-digits and [processImport] returns the
    change to the final version computed from it (or nothing, when the
    candidate or the final version is the embedded version), whatever
    the regular section holds: replacing the regular section by any
    other changes nothing. *)
Theorem development_declaration_decides
    (s : string) (registry : Registry) (pkg : PackageJson) (mode : VersionPrecision)
    (g : Groups) (dev : gmap string string) (range : string) :
  pattern registry s = Some g ->
  devDependencies pkg = Some dev ->
  dev !! groupName g = Some range ->
  let c := replaceLeadingNonDigits range in
  let final := finalVersionSpec mode c (groupVersion g) in
  candidate pkg (groupName g) = inr (Some c) /\
  processImport s registry pkg mode
  = inr (if bool_decide (c = groupVersion g) || bool_decide (final = groupVersion g)
         then None
         else Some {| newImport := rebuilt registry g final; name := groupName g;
                      oldVersion := groupVersion g; newVersion := final |}) /\
  forall other,
    processImport s registry
      {| dependencies := other; devDependencies := devDependencies pkg;
         imports := imports pkg |} mode
    = processImport s registry pkg mode.
Proof.
  intros Hp Hdev Hrange c final.
  assert (Hcand : forall deps,
            candidate {| dependencies := deps; devDependencies := devDependencies pkg;
                         imports := imports pkg |} (groupName g)
            = inr (Some c)).
  { intros deps. unfold candidate, declared. simpl.
    by rewrite Hdev, (member_own _ _ _ Hrange). }
  assert (Hc : candidate pkg (groupName g) = inr (Some c)).
  { unfold candidate, declared. by rewrite Hdev, (member_own _ _ _ Hrange). }
  split; [done|]. split.
  - rewrite processImport_unfold, Hp, Hc. fold final.
    case_bool_decide; [done|]. simpl. by case_bool_decide.
  - intros other. by rewrite !processImport_unfold, Hp, Hcand, Hc.
Qed.

Lemma development_declaration_decides_witness :
  processImport "npm:typescript@4.9.0" Npm Scenario.typescriptManifest Auto
  = inr (Some {| newImport := "npm:typescript@5.0.0"; name := "typescript";
                 oldVersion := "4.9.0"; newVersion := "5.0.0" |}).
Proof.
  apply (proj1 (proj2 (development_declaration_decides "npm:typescript@4.9.0" Npm
                         Scenario.typescriptManifest Auto
                         (Scenario.groupsOf "typescript" "4.9.0")
                         {[ "typescript" := "^5.0.0" ]} "^5.0.0"
                         eq_refl eq_refl eq_refl))).
Defined.

Lemma scoped_name_not_inherited (rest : string) : inheritedKey ("@" +:+ rest) = false.
Proof.
  unfold inheritedKey, objectPrototypeKeys. apply bool_decide_eq_false.
  rewrite str_app_cons. intros H.
  repeat (apply elem_of_cons in H as [H|H]; [discriminate H|]).
  by apply elem_of_nil in H.
Qed.

(** X22.  A matching entry whose package neither section declares is
    skipped, provided the name is not one that objects inherit from
    [Object.prototype], or the manifest has no dependency section at
    all: [processImport] returns nothing and the round of the loop
    leaves its state as it was.  The name of a JSR specifier starts
    with [@], so it is never an inherited one. *)
Theorem undeclared_name_is_skipped
    (s : string) (registry : Registry) (pkg : PackageJson) (mode : VersionPrecision)
    (g : Groups) :
  pattern registry s = Some g ->
  devDependencies pkg ≫= (.!! groupName g) = None ->
  dependencies pkg ≫= (.!! groupName g) = None ->
  (registry = Jsr -> inheritedKey (groupName g) = false) /\
  (inheritedKey (groupName g) = false \/
   (devDependencies pkg = None /\ dependencies pkg = None) ->
   processImport s registry pkg mode = inr None /\
   forall st importKey, loopBody pkg mode st (importKey, JsonString s) = inr st).
Proof.
  intros Hp Hdev Hdeps. split.
  - intros ->. apply pattern_Matches in Hp. inversion Hp; subst. simpl.
    apply scoped_name_not_inherited.
  - intros Hplain.
    assert (Hnone : processImport s registry pkg mode = inr None).
    { rewrite processImport_unfold, Hp, candidate_undeclared by done.
      destruct Hplain as [->|[-> ->]]; [done|].
      rewrite !bool_decide_eq_false_2 by (by intros [? ?]).
      by rewrite andb_false_r. }
    split; [done|]. intros st importKey. rewrite loopBody_entry.
    change ((importKey, JsonString s).2) with (JsonString s).
    by rewrite (entryResult_matched _ _ _ _ _ Hp), Hnone.
Qed.

Lemma undeclared_name_is_skipped_witness :
  processImport "jsr:@std/assert@1.0.0" Jsr Scenario.lodashManifest Auto = inr None.
Proof.
  destruct (undeclared_name_is_skipped "jsr:@std/assert@1.0.0" Jsr Scenario.lodashManifest Auto
              {| groupName := "@std/assert"; groupVersion := "1.0.0"; groupSubpath := None |}
              eq_refl eq_refl eq_refl) as [Hjsr Hskip].
  apply Hskip. left. by apply Hjsr.
Defined.

(** ** [syncDenoNpmDependencies]: what a run does to the world *)

Lemma sync_fatal (options : SyncOptions) (w : World) (e : Exception) :
  fatalCondition options w = Some e ->
  syncDenoNpmDependencies options w = (inl e, w).
Proof.
  unfold fatalCondition.
  destruct (nodes w !! pkgPathOf options w) as [n1|] eqn:H1.
  2:{ intros [= <-]. by apply sync_missing_manifest. }
  destruct (nodes w !! denoPathOf options w) as [n2|] eqn:H2.
  2:{ destruct n1 as [|[| |]]; intros [= <-]; by apply sync_missing_import_map. }
  rewrite sync_start by (by eexists).
  unfold mbind, IO_bind, readFileSync.
  rewrite H1.
  destruct n1 as [|[| pkg |]]; simpl; try (by intros [= <-]).
  rewrite H2.
  destruct n2 as [|[| deno |]]; simpl; try (by intros [= <-]).
  destruct (imports deno); [done|]. by intros [= <-].
Qed.

Lemma sync_not_fatal (options : SyncOptions) (w : World) :
  fatalCondition options w = None ->
  exists pkg deno entries,
    nodes w !! pkgPathOf options w = Some (File (JsonText pkg)) /\
    nodes w !! denoPathOf options w = Some (File (JsonText deno)) /\
    imports deno = Some entries.
Proof.
  unfold fatalCondition.
  destruct (nodes w !! pkgPathOf options w) as [[|[| pkg |]]|];
    destruct (nodes w !! denoPathOf options w) as [[|[| deno |]]|]; try done.
  destruct (imports deno) as [entries|] eqn:H3; [|done]. eauto 10.
Qed.

(** X11.  When the world shows one of the fatal conditions that are
    met before the loop, the run throws that condition and leaves the
    world as it was: a missing manifest is reported before a missing
    import map, a text that is not JSON gives a [SyntaxError] (it is not
    swallowed, unlike in the catalog resolver), and an import map
    document without an [imports] member gives a [TypeError].  When the
    world shows none of them, the run returns, or a lookup in the loop
    throws a [TypeError] and the world is again as it was. *)
Theorem run_throws_the_fatal_condition (options : SyncOptions) (w : World) :
  (forall e, fatalCondition options w = Some e ->
             syncDenoNpmDependencies options w = (inl e, w)) /\
  (fatalCondition options w = None ->
   (exists r w', syncDenoNpmDependencies options w = (inr r, w')) \/
   syncDenoNpmDependencies options w = (inl TypeError, w)).
Proof.
  split; [apply sync_fatal|].
  intros (pkg & deno & entries & H1 & H2 & H3)%sync_not_fatal.
  destruct (loopEnd pkg (modeOf options) entries) as [e|st] eqn:Hst.
  - right. rewrite (loop_exception _ _ _ _ _ Hst) in Hst. by eapply sync_loop_throws.
  - left. destruct (sync_run options w pkg deno entries st H1 H2 H3 Hst) as (w' & H & _).
    eauto.
Qed.

Lemma run_throws_the_fatal_condition_witness :
  syncDenoNpmDependencies Scenario.silentOptions
    (Scenario.worldOf {[ Scenario.pkgPath := File (JsonText Scenario.lodashManifest);
                         Scenario.denoPath := File (JsonText Scenario.lodashManifest) ]})
  = (inl TypeError,
     Scenario.worldOf {[ Scenario.pkgPath := File (JsonText Scenario.lodashManifest);
                         Scenario.denoPath := File (JsonText Scenario.lodashManifest) ]}).
Proof.
  apply (proj1 (run_throws_the_fatal_condition Scenario.silentOptions _)).
  vm_compute. reflexivity.
Defined.

Lemma entryAfter_key (pkg : PackageJson) (mode : VersionPrecision) (e : string * JsonValue) :
  (entryAfter pkg mode e).1 = e.1.
Proof. unfold entryAfter. by destruct (entryResult pkg mode e.2) as [x|[r|]]. Qed.

Lemma entryUpdates_length (pkg : PackageJson) (mode : VersionPrecision)
    (entries : list (string * JsonValue)) :
  length (concat (map (entryUpdates pkg mode) entries)) <= length entries.
Proof.
  induction entries as [|e entries IH]; [done|]. simpl. rewrite length_app.
  unfold entryUpdates at 1. destruct (entryResult pkg mode e.2) as [x|[r|]]; simpl; lia.
Qed.

(** X12.  After a run that returns, the change list holds the records of
    the changed entries in the order in which [Object.entries] lists
    the import map, one per entry at most; and the import map document
    after the run, rewritten or not, parses to an object whose
    [imports] has the same keys, listed by [Object.entries] in the same
    order (the keys being distinct, as those of an object are).  This
    is the order of [Object.entries] on the parsed documents, not the
    order in which the text of a file spells the keys. *)
Theorem run_keeps_keys_and_order
    (options : SyncOptions) (w w' : World) (r : SyncResult) :
  syncDenoNpmDependencies options w = (inr r, w') ->
  exists pkg entries,
    nodes w !! pkgPathOf options w = Some (File (JsonText pkg)) /\
    importsAt w (denoPathOf options w) = Some entries /\
    updates r = concat (map (entryUpdates pkg (modeOf options)) entries) /\
    length (updates r) <= length entries /\
    (distinctKeys entries ->
     exists entries',
       importsAt w' (denoPathOf options w) = Some entries' /\
       entries' = map (entryAfter pkg (modeOf options)) entries /\
       entries'.*1 = entries.*1).
Proof.
  intros (pkg & deno & entries & st & H1 & H2 & H3 & Hst & -> & Hw)%sync_return_inv.
  simpl.
  destruct (loopEnd_flag pkg (modeOf options) entries st Hst) as (Hups & Hflag & Hsame).
  exists pkg, entries. split; [done|]. split; [by unfold importsAt; rewrite H2|].
  split; [done|]. split; [rewrite Hups; apply entryUpdates_length|].
  intros Hkeys.
  pose proof (loop_spec _ _ _ _ Hkeys Hst) as Hloop.
  exists (map (entryAfter pkg (modeOf options)) entries).
  split; [|split; [done|]].
  - unfold importsAt. destruct (stHasUpdates st) eqn:Hu.
    + destruct Hw as (_ & -> & _). rewrite lookup_insert_eq. simpl. by rewrite Hloop.
    + destruct Hw as (_ & -> & _). rewrite H2, H3. f_equal.
      rewrite <- (Hsame eq_refl) at 1. by rewrite Hloop.
  - rewrite <- list_fmap_compose. apply list_fmap_ext. intros i e _. simpl.
    apply entryAfter_key.
Qed.

Lemma run_keeps_keys_and_order_witness :
  exists pkg entries,
    nodes Scenario.unresolvedWorld !! pkgPathOf Scenario.silentOptions Scenario.unresolvedWorld
    = Some (File (JsonText pkg)) /\
    importsAt Scenario.unresolvedWorld (denoPathOf Scenario.silentOptions Scenario.unresolvedWorld)
    = Some entries /\
    updates {| hasUpdates := true;
               updates := [Update.mk "zod" "3.21.0" ""; Update.mk "lodash" "4.17.0" "4.17.21"] |}
    = concat (map (entryUpdates pkg (modeOf Scenario.silentOptions)) entries) /\
    length (updates {| hasUpdates := true;
                       updates := [Update.mk "zod" "3.21.0" "";
                                   Update.mk "lodash" "4.17.0" "4.17.21"] |})
    <= length entries /\
    (distinctKeys entries ->
     exists entries',
       importsAt (syncDenoNpmDependencies Scenario.silentOptions Scenario.unresolvedWorld).2
         (denoPathOf Scenario.silentOptions Scenario.unresolvedWorld) = Some entries' /\
       entries' = map (entryAfter pkg (modeOf Scenario.silentOptions)) entries /\
       entries'.*1 = entries.*1).
Proof.
  apply (run_keeps_keys_and_order Scenario.silentOptions Scenario.unresolvedWorld
           (syncDenoNpmDependencies Scenario.silentOptions Scenario.unresolvedWorld).2).
  vm_compute. reflexivity.
Defined.

Lemma sync_run_silent (options : SyncOptions) (w : World) (pkg : PackageJson)
    (deno : DenoJson) (entries : list (string * JsonValue)) (st : LoopState) :
  silent options = Some true ->
  nodes w !! pkgPathOf options w = Some (File (JsonText pkg)) ->
  nodes w !! denoPathOf options w = Some (File (JsonText deno)) ->
  imports deno = Some entries ->
  loopEnd pkg (modeOf options) entries = inr st ->
  console (syncDenoNpmDependencies options w).2 = console w.
Proof.
  intros Hs H1 H2 H3 H4.
  rewrite sync_start by (by eexists).
  unfold mbind, IO_bind, readFileSync, result.
  rewrite H1. simpl. rewrite H2. simpl. rewrite H3. simpl. rewrite H4, Hs. simpl.
  by destruct (stHasUpdates st).
Qed.

(** X13.  The [silent] option changes nothing but console output: with
    any value of it the run returns, or throws, the same thing and
    leaves the same files and the same history of writes; and a silent
    run prints nothing. *)
Theorem silent_only_affects_the_console (options : SyncOptions) (w : World) (b : bool) :
  (syncDenoNpmDependencies (withSilent b options) w).1
  = (syncDenoNpmDependencies options w).1 /\
  sameDisk (syncDenoNpmDependencies options w).2
           (syncDenoNpmDependencies (withSilent b options) w).2 /\
  console (syncDenoNpmDependencies (withSilent true options) w).2 = console w.
Proof.
  destruct (fatalCondition options w) as [e|] eqn:Hf.
  - assert (Hf' : forall b', fatalCondition (withSilent b' options) w = Some e) by done.
    rewrite (sync_fatal _ _ _ Hf), !(sync_fatal _ _ _ (Hf' _)). done.
  - destruct (sync_not_fatal _ _ Hf) as (pkg & deno & entries & H1 & H2 & H3).
    destruct (loopEnd pkg (modeOf options) entries) as [e|st] eqn:Hst.
    { rewrite (sync_loop_throws options w pkg deno entries e H1 H2 H3 Hst).
      rewrite (sync_loop_throws (withSilent b options) w pkg deno entries e H1 H2 H3 Hst).
      rewrite (sync_loop_throws (withSilent true options) w pkg deno entries e H1 H2 H3 Hst).
      done. }
    destruct (sync_run options w pkg deno entries st H1 H2 H3 Hst) as (w1 & E1 & Hw1).
    destruct (sync_run (withSilent b options) w pkg deno entries st H1 H2 H3 Hst)
      as (w2 & E2 & Hw2).
    split; [by rewrite E1, E2|]. split.
    + rewrite E1, E2. simpl.
      change (denoPathOf (withSilent b options) w) with (denoPathOf options w) in Hw2.
      destruct (stHasUpdates st).
      * destruct Hw1 as (A1 & A2 & A3), Hw2 as (B1 & B2 & B3).
        unfold sameDisk. by rewrite A1, A2, A3, B1, B2, B3.
      * destruct Hw1 as (A1 & A2 & A3), Hw2 as (B1 & B2 & B3).
        unfold sameDisk. by rewrite A1, A2, A3, B1, B2, B3.
    + by apply (sync_run_silent (withSilent true options) w pkg deno entries st).
Qed.

(** X14.  Whatever a run does, it writes at most once, to the path of
    the import map: every other path, the manifest among them when it
    is another file, holds after the run what it held before, and the
    working directory is the same. *)
Theorem run_writes_the_import_map_only (options : SyncOptions) (w : World) :
  let w' := (syncDenoNpmDependencies options w).2 in
  cwd w' = cwd w /\
  (forall p, p <> denoPathOf options w -> nodes w' !! p = nodes w !! p) /\
  (writes w' = writes w \/
   exists c, writes w' = writes w ++ [(denoPathOf options w, c)]).
Proof.
  destruct (sync_outcome options w) as [[e H]|(pkg & deno & entries & st & H1 & H2 & H3 & Hst)].
  - rewrite H. simpl. auto.
  - destruct (sync_run options w pkg deno entries st H1 H2 H3 Hst) as (w1 & E1 & Hw1).
    rewrite E1. simpl. destruct (stHasUpdates st).
    + destruct Hw1 as (A1 & A2 & A3). split; [done|]. split.
      * intros p Hp. rewrite A2. by rewrite lookup_insert_ne.
      * right. eauto.
    + destruct Hw1 as (A1 & A2 & A3). rewrite A2. auto.
Qed.

(** ** The earlier revision *)

Lemma legacy_loopBody (pkg : PackageJson) (st : LoopState) (e : string * JsonValue) :
  Legacy.loopBody pkg st e = loopBody pkg Full st e.
Proof.
  destruct e as [importKey [s|t]]; [|done]. simpl.
  unfold processImport, Legacy.branch.
  destruct (npmPattern s) as [g|] eqn:Hn.
  - rewrite (patterns_disjoint _ _ Hn).
    destruct (nullish _ _) as [x|[pv|]]; [done| |done].
    case_bool_decide; done.
  - destruct (jsrPattern s) as [g|]; [|done].
    destruct (nullish _ _) as [x|[pv|]]; [done| |done].
    case_bool_decide; done.
Qed.

Lemma legacy_loop (pkg : PackageJson) (entries : list (string * JsonValue)) (st : LoopState) :
  forOf (Legacy.loopBody pkg) entries st = forOf (loopBody pkg Full) entries st.
Proof.
  revert st. induction entries as [|e entries IH]; intros st; [done|]. simpl.
  rewrite legacy_loopBody. destruct (loopBody pkg Full st e); [done|apply IH].
Qed.

(** X15.  The earlier revision of the engine, which knows no precision
    mode, does on every world what the current one does in [full] mode:
    same result or same exception, same files, same console output. *)
Theorem legacy_engine_is_full_mode (options : Legacy.SyncOptions) (w : World) :
  Legacy.syncDenoNpmDependencies options w
  = syncDenoNpmDependencies (Legacy.asFull options) w.
Proof.
  unfold Legacy.syncDenoNpmDependencies, syncDenoNpmDependencies, Legacy.asFull.
  unfold mbind, IO_bind, pathResolve, existsSync, readFileSync, result. simpl.
  destruct (nodes w !! Path.resolve (cwd w) (Legacy.packageJsonPath options))
    as [n1|] eqn:H1; [|reflexivity].
  rewrite bool_decide_eq_true_2 by done. simpl.
  destruct (nodes w !! Path.resolve (cwd w) (Legacy.denoJsonPath options))
    as [n2|] eqn:H2; [|reflexivity].
  rewrite bool_decide_eq_true_2 by done. simpl. rewrite H1.
  destruct n1 as [|[| pkg |]]; try reflexivity. simpl. rewrite H2.
  destruct n2 as [|[| deno |]]; try reflexivity. simpl.
  destruct (imports deno) as [entries|]; [|reflexivity]. simpl.
  rewrite legacy_loop. reflexivity.
Qed.

(** ** The catalog resolver *)

Lemma readPnpmWorkspaceYaml_cases (workspaceRoot : string) (w : World) :
  readPnpmWorkspaceYaml workspaceRoot w
  = (inr match nodes w !! workspaceDocumentPath w workspaceRoot with
         | Some (File (YamlText yaml)) => Some yaml
         | Some (File (JsonText _)) => Some {| catalog := None; catalogs := None |}
         | _ => None
         end, w).
Proof.
  unfold readPnpmWorkspaceYaml, mbind, IO_bind, pathResolve, existsSync, tryCatch,
    readFileSync.
  fold (workspaceDocumentPath w workspaceRoot).
  destruct (nodes w !! workspaceDocumentPath w workspaceRoot) as [n|] eqn:H.
  - rewrite bool_decide_eq_true_2 by done. simpl. rewrite H.
    by destruct n as [|[| |]].
  - rewrite bool_decide_eq_false_2; [done|]. by intros [? ?].
Qed.

Lemma resolvePnpmCatalog_cases
    (builtinGet : string -> string -> Exception + option Resolved)
    (packageName catalogName workspaceRoot : string) (w : World) :
  resolvePnpmCatalog builtinGet packageName catalogName workspaceRoot w
  = (match nodes w !! workspaceDocumentPath w workspaceRoot with
     | Some (File (YamlText yaml)) => catalogEntry builtinGet yaml catalogName packageName
     | _ => inr None
     end, w).
Proof.
  unfold resolvePnpmCatalog. unfold mbind at 1. unfold IO_bind.
  rewrite readPnpmWorkspaceYaml_cases.
  destruct (nodes w !! workspaceDocumentPath w workspaceRoot) as [[|[| |]]|];
    try done; unfold catalogEntry; simpl; by case_bool_decide.
Qed.

Lemma entryOf_inv (o : option (gmap string string)) (packageName : string) (a : Resolved) :
  entryOf o packageName = Some a ->
  (exists range, a = Range range /\ o ≫= (.!! packageName) = Some range) \/
  (a = Builtin [packageName] /\ inheritedKey packageName = true /\
   exists entries, o = Some entries /\ entries !! packageName = None).
Proof.
  unfold entryOf. destruct (member o packageName) as [|range|key] eqn:E; [done|..].
  - intros [= <-]. apply member_Own_inv in E as (m & -> & Hm). left. by exists range.
  - intros [= <-]. apply member_Inherited_inv in E as (-> & Hk & m & Ho & Hm).
    right. eauto.
Qed.

Lemma catalogEntry_inv
    (builtinGet : string -> string -> Exception + option Resolved)
    (yaml : PnpmWorkspaceYaml) (catalogName packageName : string) (a : Resolved) :
  catalogEntry builtinGet yaml catalogName packageName = inr (Some a) ->
  (exists range,
     a = Range range /\
     selectedCatalog yaml catalogName ≫= (.!! packageName) = Some range) \/
  (a = Builtin [packageName] /\ inheritedKey packageName = true /\
   exists entries,
     selectedCatalog yaml catalogName = Some entries /\ entries !! packageName = None) \/
  (catalogName <> "default" /\ inheritedKey catalogName = true /\
   (exists named, catalogs yaml = Some named /\ named !! catalogName = None) /\
   builtinGet catalogName packageName = inr (Some a)).
Proof.
  unfold catalogEntry, selectedCatalog. case_bool_decide as Hd.
  - intros [= H]. apply entryOf_inv in H as [H|H]; auto.
  - unfold namedEntryOf.
    destruct (member (catalogs yaml) catalogName) as [|entries|key] eqn:E; [done|..].
    + apply member_Own_inv in E as (named & -> & Hn). simpl. rewrite Hn. simpl.
      intros [= H]. apply entryOf_inv in H as [H|(-> & Hk & entries' & [= <-] & He)].
      * by left.
      * right. left. eauto.
    + apply member_Inherited_inv in E as (-> & Hk & named & Hc & Hn).
      intros H. right. right. eauto 10.
Qed.

Lemma catalogEntry_own
    (builtinGet : string -> string -> Exception + option Resolved)
    (yaml : PnpmWorkspaceYaml) (catalogName packageName range : string) :
  selectedCatalog yaml catalogName ≫= (.!! packageName) = Some range ->
  catalogEntry builtinGet yaml catalogName packageName = inr (Some (Range range)).
Proof.
  unfold catalogEntry, selectedCatalog, namedEntryOf, entryOf. case_bool_decide as Hd.
  - destruct (catalog yaml) as [entries|]; [|done].
    intros H. by rewrite (member_own _ _ _ H).
  - destruct (catalogs yaml) as [named|]; [|done].
    destruct (named !! catalogName) as [entries|] eqn:Hn;
      cbn [mbind option_bind]; rewrite ?Hn; [|done].
    intros H. by rewrite (member_own _ _ _ Hn), (member_own _ _ _ H).
Qed.

(** The runtime is consulted for a catalog called like a member of
    [Object.prototype] only. *)
Lemma catalogEntry_plain
    (builtinGet : string -> string -> Exception + option Resolved)
    (yaml : PnpmWorkspaceYaml) (catalogName packageName : string) :
  inheritedKey catalogName = false ->
  exists r, catalogEntry builtinGet yaml catalogName packageName = inr r.
Proof.
  intros Hk. unfold catalogEntry, namedEntryOf. case_bool_decide; [by eexists|].
  rewrite member_plain by done. destruct (_ ≫= _); by eexists.
Qed.

(** X16.  The resolver never changes the world, whatever it answers, and
    a workspace document that is missing, is a directory or does not
    parse makes [readPnpmWorkspaceYaml] and [resolvePnpmCatalog] answer
    [null].  It throws in one case at most: when the catalog is called
    like a member of [Object.prototype], the package name is read on
    that member, and that read may throw.  For every other catalog
    name, [default] among them, [resolvePnpmCatalog] returns, and so
    does [resolveVersion] when the reference names such a catalog. *)
Theorem resolver_leaves_the_world_alone
    (detect : World -> string -> option string)
    (builtinGet : string -> string -> Exception + option Resolved)
    (version packageName catalogName workspaceRoot : string) (w : World) :
  (exists yaml, readPnpmWorkspaceYaml workspaceRoot w = (inr yaml, w)) /\
  (exists r, resolvePnpmCatalog builtinGet packageName catalogName workspaceRoot w = (r, w)) /\
  (exists r, resolveVersion detect builtinGet version packageName workspaceRoot w = (r, w)) /\
  (inheritedKey catalogName = false ->
   exists r,
     resolvePnpmCatalog builtinGet packageName catalogName workspaceRoot w = (inr r, w)) /\
  ((forall catalogRef, parseCatalogReference version = Some catalogRef ->
                       inheritedKey (CatalogResolver.catalogName catalogRef) = false) ->
   exists r,
     resolveVersion detect builtinGet version packageName workspaceRoot w = (inr r, w)) /\
  (match nodes w !! workspaceDocumentPath w workspaceRoot with
   | Some (File (YamlText _)) => True
   | _ => resolvePnpmCatalog builtinGet packageName catalogName workspaceRoot w
          = (inr None, w)
   end).
Proof.
  split; [|split; [|split; [|split; [|split]]]].
  - rewrite readPnpmWorkspaceYaml_cases. eauto.
  - rewrite resolvePnpmCatalog_cases. eauto.
  - unfold resolveVersion. destruct (parseCatalogReference version); [|by eexists].
    unfold mbind, IO_bind, detectPackageManager. case_bool_decide.
    + rewrite resolvePnpmCatalog_cases. eauto.
    + by eexists.
  - intros Hk. rewrite resolvePnpmCatalog_cases.
    destruct (nodes w !! workspaceDocumentPath w workspaceRoot) as [[|[| |yaml]]|];
      try by eexists.
    destruct (catalogEntry_plain builtinGet yaml catalogName packageName Hk) as [r ->].
    by eexists.
  - intros Hk. unfold resolveVersion.
    destruct (parseCatalogReference version) as [catalogRef|] eqn:Href; [|by eexists].
    specialize (Hk catalogRef eq_refl).
    unfold mbind, IO_bind, detectPackageManager. case_bool_decide; [|by eexists].
    rewrite resolvePnpmCatalog_cases.
    destruct (nodes w !! workspaceDocumentPath w workspaceRoot) as [[|[| |yaml]]|];
      try by eexists.
    destruct (catalogEntry_plain builtinGet yaml (CatalogResolver.catalogName catalogRef)
                packageName Hk) as [r ->].
    by eexists.
  - rewrite resolvePnpmCatalog_cases.
    by destruct (nodes w !! workspaceDocumentPath w workspaceRoot) as [[|[| |]]|].
Qed.

Lemma resolver_leaves_the_world_alone_witness :
  exists r,
    resolvePnpmCatalog Scenario.builtins "lodash" "prod" "/ws" Scenario.namedCatalogWorld
    = (inr r, Scenario.namedCatalogWorld).
Proof.
  apply (proj1 (proj2 (proj2 (proj2
           (resolver_leaves_the_world_alone Scenario.pnpmDetected Scenario.builtins
              "catalog:prod" "lodash" "prod" "/ws" Scenario.namedCatalogWorld))))).
  reflexivity.
Defined.

(** X17.  An answer of [resolveVersion] that is not [null] has a source.
    It is the input, which then is no catalog reference; or pnpm is the
    detected package manager, the workspace document of the given root
    parses, and the answer is the entry that the catalog selected by
    the reference has for the package; or else it is what a lookup that
    found no such entry meets in [Object.prototype]: the member called
    like the package, or what reading the package name on the member
    called like the catalog yields. *)
Theorem resolved_version_has_a_source
    (detect : World -> string -> option string)
    (builtinGet : string -> string -> Exception + option Resolved)
    (version packageName workspaceRoot : string) (w w' : World) (a : Resolved) :
  resolveVersion detect builtinGet version packageName workspaceRoot w
  = (inr (Some a), w') ->
  (startsWith "catalog:" version = false /\ a = Range version) \/
  (startsWith "catalog:" version = true /\
   detect w workspaceRoot = Some "pnpm" /\
   exists catalogRef yaml,
     parseCatalogReference version = Some catalogRef /\
     nodes w !! workspaceDocumentPath w workspaceRoot = Some (File (YamlText yaml)) /\
     ((exists range,
         a = Range range /\
         selectedCatalog yaml (catalogName catalogRef) ≫= (.!! packageName) = Some range) \/
      (a = Builtin [packageName] /\ inheritedKey packageName = true /\
       exists entries,
         selectedCatalog yaml (catalogName catalogRef) = Some entries /\
         entries !! packageName = None) \/
      (catalogName catalogRef <> "default" /\
       inheritedKey (catalogName catalogRef) = true /\
       (exists named,
          catalogs yaml = Some named /\ named !! catalogName catalogRef = None) /\
       builtinGet (catalogName catalogRef) packageName = inr (Some a)))).
Proof.
  unfold resolveVersion.
  destruct (startsWith "catalog:" version) eqn:Hs.
  - destruct (parseCatalogReference_Some version Hs) as [catalogRef ->].
    unfold mbind, IO_bind, detectPackageManager.
    case_bool_decide as Hpm; [|done].
    rewrite resolvePnpmCatalog_cases.
    destruct (nodes w !! workspaceDocumentPath w workspaceRoot) as [[|[| |yaml]]|] eqn:Hn;
      try done.
    intros [= Hv _]. right. split; [done|]. split; [done|].
    exists catalogRef, yaml. split; [done|]. split; [done|]. by apply catalogEntry_inv.
  - rewrite parseCatalogReference_None by done. intros [= <- _]. by left.
Qed.

Lemma resolved_version_has_a_source_witness :
  (startsWith "catalog:" "catalog:prod" = false /\ Range "^3.23.8" = Range "catalog:prod") \/
  (startsWith "catalog:" "catalog:prod" = true /\
   Scenario.pnpmDetected Scenario.namedCatalogWorld "/ws" = Some "pnpm" /\
   exists catalogRef yaml,
     parseCatalogReference "catalog:prod" = Some catalogRef /\
     nodes Scenario.namedCatalogWorld !! workspaceDocumentPath Scenario.namedCatalogWorld "/ws"
     = Some (File (YamlText yaml)) /\
     ((exists range,
         Range "^3.23.8" = Range range /\
         selectedCatalog yaml (catalogName catalogRef) ≫= (.!! "zod") = Some range) \/
      (Range "^3.23.8" = Builtin ["zod"] /\ inheritedKey "zod" = true /\
       exists entries,
         selectedCatalog yaml (catalogName catalogRef) = Some entries /\
         entries !! "zod" = None) \/
      (catalogName catalogRef <> "default" /\
       inheritedKey (catalogName catalogRef) = true /\
       (exists named,
          catalogs yaml = Some named /\ named !! catalogName catalogRef = None) /\
       Scenario.builtins (catalogName catalogRef) "zod" = inr (Some (Range "^3.23.8"))))).
Proof.
  apply (resolved_version_has_a_source Scenario.pnpmDetected Scenario.builtins
           "catalog:prod" "zod" "/ws"
           Scenario.namedCatalogWorld Scenario.namedCatalogWorld (Range "^3.23.8")).
  vm_compute. reflexivity.
Defined.

(** X23.  A lookup of the resolver that finds no entry does not always
    answer [null].  With a workspace document that parses: when the
    selected catalog is there and has no entry for the package, the
    answer is [null] unless the package is called like a member of
    [Object.prototype], in which case it is that member; when the named
    catalogs are there and none has the given name, the answer is
    [null] unless the catalog is called like such a member, in which
    case the outcome is that of reading the package name on that
    member: a value, [null] or an exception; and when the document has
    no default catalog, or no named catalogs, the answer is [null]. *)
Theorem resolver_answers_inherited_members
    (builtinGet : string -> string -> Exception + option Resolved)
    (packageName catalogName workspaceRoot : string) (w : World) (yaml : PnpmWorkspaceYaml) :
  nodes w !! workspaceDocumentPath w workspaceRoot = Some (File (YamlText yaml)) ->
  (forall entries,
     selectedCatalog yaml catalogName = Some entries -> entries !! packageName = None ->
     resolvePnpmCatalog builtinGet packageName catalogName workspaceRoot w
     = (inr (if inheritedKey packageName then Some (Builtin [packageName]) else None), w)) /\
  (forall named,
     catalogName <> "default" ->
     catalogs yaml = Some named -> named !! catalogName = None ->
     resolvePnpmCatalog builtinGet packageName catalogName workspaceRoot w
     = (if inheritedKey catalogName then builtinGet catalogName packageName else inr None,
        w)) /\
  ((if bool_decide (catalogName = "default") then catalog yaml = None
    else catalogs yaml = None) ->
   resolvePnpmCatalog builtinGet packageName catalogName workspaceRoot w = (inr None, w)).
Proof.
  intros Hyaml. rewrite resolvePnpmCatalog_cases, Hyaml.
  unfold catalogEntry, selectedCatalog, namedEntryOf, entryOf.
  split; [|split].
  - intros entries Hsel Hentry. f_equal. case_bool_decide as Hd.
    + rewrite Hsel. unfold member. rewrite Hentry. by destruct (inheritedKey packageName).
    + destruct (catalogs yaml) as [named|]; [|done]. simpl in Hsel.
      rewrite (member_own _ _ _ Hsel). unfold member. rewrite Hentry.
      by destruct (inheritedKey packageName).
  - intros named Hd Hcat Hnamed. rewrite bool_decide_eq_false_2 by done.
    rewrite Hcat. unfold member. rewrite Hnamed. by destruct (inheritedKey catalogName).
  - case_bool_decide; by intros ->.
Qed.

Lemma resolver_answers_inherited_members_witness :
  resolvePnpmCatalog Scenario.builtins "constructor" "default" "/ws" Scenario.catalogWorld
    = (inr (Some (Builtin ["constructor"])), Scenario.catalogWorld) /\
  resolvePnpmCatalog Scenario.builtins "name" "constructor" "/ws" Scenario.namedCatalogWorld
    = (inr (Some (Range "Object")), Scenario.namedCatalogWorld) /\
  resolvePnpmCatalog Scenario.builtins "caller" "constructor" "/ws" Scenario.namedCatalogWorld
    = (inl TypeError, Scenario.namedCatalogWorld).
Proof.
  split; [|split].
  - apply (proj1 (resolver_answers_inherited_members Scenario.builtins
                    "constructor" "default" "/ws"
                    Scenario.catalogWorld Scenario.zodCatalog ltac:(vm_compute; reflexivity))
             {[ "zod" := "^3.22.0" ]}); reflexivity.
  - apply (proj1 (proj2 (resolver_answers_inherited_members Scenario.builtins
                           "name" "constructor" "/ws"
                           Scenario.namedCatalogWorld Scenario.namedCatalog
                           ltac:(vm_compute; reflexivity)))
             {[ "prod" := {[ "zod" := "^3.23.8" ]} ]}).
    + discriminate.
    + reflexivity.
    + reflexivity.
  - apply (proj1 (proj2 (resolver_answers_inherited_members Scenario.builtins
                           "caller" "constructor" "/ws"
                           Scenario.namedCatalogWorld Scenario.namedCatalog
                           ltac:(vm_compute; reflexivity)))
             {[ "prod" := {[ "zod" := "^3.23.8" ]} ]}).
    + discriminate.
    + reflexivity.
    + reflexivity.
Defined.

(** ** [parseCatalogReference] *)

Lemma rev_app_allChars (p : ascii -> bool) (a b : string) :
  allChars p (String.rev_app a b) = allChars p a && allChars p b.
Proof.
  revert b. induction a as [|c a IH]; intros b; [done|]. simpl.
  rewrite IH. simpl. by destruct (p c), (allChars p a), (allChars p b).
Qed.

Lemma rev_app_rev_app (a b c : string) :
  String.rev_app (String.rev_app a b) c = String.rev_app b (a +:+ c).
Proof.
  revert b c. induction a as [|x a IH]; intros b c; [done|]. simpl.
  rewrite IH. simpl. by rewrite str_app_cons.
Qed.

Lemma rev_rev (s : string) : String.rev (String.rev s) = s.
Proof. unfold String.rev. rewrite rev_app_rev_app. simpl. apply str_app_nil_r. Qed.

Lemma rev_app_length (a b : string) :
  String.length (String.rev_app a b) = String.length a + String.length b.
Proof.
  revert b. induction a as [|c a IH]; intros b; [done|]. simpl. rewrite IH. simpl. lia.
Qed.

Lemma plain_is_no_whiteSpace (c : ascii) (r : string) :
  isPlain c = true ->
  stripAny whiteSpace (String c r) = None /\
  stripAny (map String.rev whiteSpace) (String c r) = None.
Proof.
  destruct c as [[] [] [] [] [] [] [] []]; intros H;
    try discriminate H; split; reflexivity.
Qed.

Lemma dropWhileAny_plain (fuel : nat) (s : string) :
  s <> "" -> allChars isPlain s = true ->
  dropWhileAny fuel whiteSpace s = s /\
  dropWhileAny fuel (map String.rev whiteSpace) s = s.
Proof.
  intros Hne Hs. destruct s as [|c r]; [done|]. simpl in Hs.
  apply andb_true_iff in Hs as [Hc _].
  destruct (plain_is_no_whiteSpace c r Hc) as [H1 H2].
  destruct fuel; [done|]. cbn [dropWhileAny]. by rewrite H1, H2.
Qed.

Lemma trim_plain (s : string) :
  s <> "" -> allChars isPlain s = true -> trim s = s.
Proof.
  intros Hne Hs. unfold trim, trimStart, trimEnd.
  rewrite (proj1 (dropWhileAny_plain _ s Hne Hs)).
  assert (Hrev : String.rev s <> "").
  { intros H. apply (f_equal String.length) in H. unfold String.rev in H.
    rewrite rev_app_length in H. destruct s; [done|]. simpl in H. lia. }
  assert (Hplain : allChars isPlain (String.rev s) = true).
  { unfold String.rev. by rewrite rev_app_allChars, Hs. }
  rewrite (proj2 (dropWhileAny_plain _ _ Hrev Hplain)). apply rev_rev.
Qed.

Lemma dropWhileAny_spaces (table : list string) (n fuel : nat) :
  stripAny table "" = None ->
  (forall r, stripAny table (String " " r) = Some r) ->
  n <= fuel -> dropWhileAny fuel table (spaces n) = "".
Proof.
  intros Hnil Hstrip. revert fuel. induction n as [|n IH]; intros fuel Hf.
  - destruct fuel; [done|]. cbn [dropWhileAny spaces]. by rewrite Hnil.
  - destruct fuel; [lia|]. cbn [dropWhileAny spaces]. rewrite Hstrip. apply IH. lia.
Qed.

Lemma spaces_length (n : nat) : String.length (spaces n) = n.
Proof. induction n; simpl; auto. Qed.

Lemma trim_spaces (n : nat) : trim (spaces n) = "".
Proof.
  unfold trim, trimStart, trimEnd.
  rewrite dropWhileAny_spaces; [done|done|done|]. by rewrite spaces_length.
Qed.

(** X18.  [parseCatalogReference] answers [null] exactly for the strings
    that do not start with [catalog:]; the catalog name it returns is
    never empty; a reference followed by spaces only names the default
    catalog, and a reference followed by a name of printable characters
    without blanks names that catalog. *)
Theorem parseCatalogReference_names :
  (forall reference,
     parseCatalogReference reference = None <-> startsWith "catalog:" reference = false) /\
  (forall reference catalogRef,
     parseCatalogReference reference = Some catalogRef -> catalogName catalogRef <> "") /\
  (forall n, parseCatalogReference ("catalog:" +:+ spaces n)
             = Some {| catalogName := "default" |}) /\
  (forall name,
     name <> "" -> allChars isPlain name = true ->
     parseCatalogReference ("catalog:" +:+ name) = Some {| catalogName := name |}).
Proof.
  split; [|split; [|split]].
  - intros reference. unfold parseCatalogReference.
    destruct (startsWith "catalog:" reference); simpl; split; done.
  - intros reference catalogRef. unfold parseCatalogReference.
    destruct (startsWith "catalog:" reference); simpl; [|done].
    intros [= <-]. simpl. by case_bool_decide.
  - intros n. unfold parseCatalogReference.
    change (startsWith "catalog:" ("catalog:" +:+ spaces n)) with true. simpl negb. cbv iota.
    change (sliceFrom (String.length "catalog:") ("catalog:" +:+ spaces n)) with (spaces n).
    by rewrite trim_spaces.
  - intros name Hne Hplain. unfold parseCatalogReference.
    change (startsWith "catalog:" ("catalog:" +:+ name)) with true. simpl negb. cbv iota.
    change (sliceFrom (String.length "catalog:") ("catalog:" +:+ name)) with name.
    rewrite trim_plain by done. by rewrite bool_decide_eq_false_2.
Qed.

Lemma parseCatalogReference_names_witness :
  catalogName {| catalogName := "prod" |} <> "" /\
  parseCatalogReference ("catalog:" +:+ "prod") = Some {| catalogName := "prod" |}.
Proof.
  destruct parseCatalogReference_names as (_ & Hname & _ & Hplain).
  split.
  - apply (Hname "catalog:prod"). reflexivity.
  - apply (Hplain "prod"); [discriminate|reflexivity].
Defined.

(** ** [findWorkspaceRoot] and the paths it returns *)

Lemma prefix_dirname (d p : list string) :
  d `prefix_of` p -> d <> p -> d `prefix_of` Path.dirname p.
Proof.
  intros [k Hk] Hne. unfold Path.dirname.
  destruct (exists_last (l:=k)) as (k' & y & ->).
  { intros ->. rewrite app_nil_r in Hk. done. }
  subst p. rewrite app_assoc, removelast_last. by apply prefix_app_r.
Qed.

Lemma climb_nearest (rounds : nat) (p d : list string) (w w' : World) :
  length p <= rounds ->
  climb rounds p w = (inr (Some d), w') ->
  forall d', d `prefix_of` d' -> d' `prefix_of` p -> d' <> d ->
             nodes w !! Path.child d' "pnpm-workspace.yaml" = None.
Proof.
  revert p. induction rounds as [|rounds IH]; intros p Hlen.
  - destruct p; [|simpl in Hlen; lia]. by rewrite climb_root.
  - destruct (decide (p = Path.root)) as [->|Hp]; [by rewrite climb_root|].
    rewrite climb_step by done. case_bool_decide as Hfound.
    + intros [= <- _] d' H1 H2 Hne. destruct Hne. by apply (anti_symm prefix).
    + intros Hc d' H1 H2 Hne.
      destruct (decide (d' = p)) as [->|Hne'].
      * destruct (nodes w !! _) eqn:E; [|done]. exfalso. apply Hfound. eauto.
      * apply (IH (Path.dirname p)); try done.
        -- pose proof (dirname_length p Hp). lia.
        -- by apply prefix_dirname.
Qed.

(** X19.  [findWorkspaceRoot] answers the nearest directory: the
    directory it returns lies on the way from the start path to the
    root, holds the workspace document, and no directory between the
    start path and it does; and it finds one whenever one other than
    the root holds the document. *)
Theorem findWorkspaceRoot_nearest (startPath : string) (w : World) :
  let start := Path.resolve (cwd w) startPath in
  (forall d w',
     findWorkspaceRoot startPath w = (inr (Some d), w') ->
     d `prefix_of` start /\
     is_Some (nodes w !! Path.child d "pnpm-workspace.yaml") /\
     forall d', d `prefix_of` d' -> d' `prefix_of` start -> d' <> d ->
                nodes w !! Path.child d' "pnpm-workspace.yaml" = None) /\
  (forall d',
     d' <> Path.root -> d' `prefix_of` start ->
     is_Some (nodes w !! Path.child d' "pnpm-workspace.yaml") ->
     exists d, findWorkspaceRoot startPath w = (inr (Some d), w)).
Proof.
  intros start. unfold findWorkspaceRoot, mbind, IO_bind, pathResolve. simpl.
  fold start.
  destruct (climb_result (length start) start w ltac:(lia)) as (r & Hr & Hspec).
  split.
  - intros d w' Hd. pose proof Hd as Hd'. rewrite Hr in Hd'. injection Hd' as -> <-.
    destruct Hspec as (_ & Hpre & Hex). split; [done|]. split; [done|].
    by apply (climb_nearest (length start) start d w w).
  - intros d' Hne Hpre Hex. rewrite Hr. destruct r as [d|]; [by exists d|].
    rewrite (Hspec d' Hne Hpre) in Hex. by destruct Hex.
Qed.

Lemma findWorkspaceRoot_nearest_witness :
  exists d, findWorkspaceRoot "packages/app/src" Scenario.catalogWorld
            = (inr (Some d), Scenario.catalogWorld).
Proof.
  apply (proj2 (findWorkspaceRoot_nearest "packages/app/src" Scenario.catalogWorld) ["ws"]).
  - discriminate.
  - by exists ["packages"; "app"; "src"].
  - vm_compute. eauto.
Defined.

Lemma isSegment_spec (seg : string) :
  isSegment seg = true <->
  seg <> "" /\ seg <> "." /\ seg <> ".." /\ allChars notSlash seg = true.
Proof.
  unfold isSegment. rewrite !andb_true_iff, !negb_true_iff, !bool_decide_eq_false. tauto.
Qed.

Lemma step_segment (acc : list string) (seg : string) :
  isSegment seg = true -> Path.step acc seg = acc ++ [seg].
Proof.
  intros (H1 & H2 & H3 & _)%isSegment_spec. unfold Path.step.
  by rewrite !bool_decide_eq_false_2.
Qed.

Lemma fold_step_segments (l acc : list string) :
  Forall (fun seg => isSegment seg = true) l ->
  fold_left Path.step l acc = acc ++ l.
Proof.
  revert acc. induction l as [|seg l IH]; intros acc Hl; simpl.
  - by rewrite app_nil_r.
  - apply Forall_cons in Hl as [Hseg Hl]. rewrite step_segment by done.
    rewrite IH by done. by rewrite <- app_assoc.
Qed.

Lemma Forall_removelast {A} (P : A -> Prop) (l : list A) :
  Forall P l -> Forall P (removelast l).
Proof.
  intros H. destruct (decide (l = [])) as [->|Hne]; [done|].
  destruct (exists_last Hne) as (q & x & ->). rewrite removelast_last.
  by apply Forall_app in H as [H _].
Qed.

Lemma step_keeps_segments (acc : list string) (seg : string) :
  Forall (fun s => isSegment s = true) acc ->
  allChars notSlash seg = true ->
  Forall (fun s => isSegment s = true) (Path.step acc seg).
Proof.
  intros Hacc Hseg. unfold Path.step.
  destruct (bool_decide (seg = "")) eqn:E1; simpl; [done|].
  destruct (bool_decide (seg = ".")) eqn:E2; simpl; [done|].
  destruct (bool_decide (seg = "..")) eqn:E3; [by apply Forall_removelast|].
  apply Forall_app. split; [done|]. constructor; [|done].
  unfold isSegment. by rewrite E1, E2, E3, Hseg.
Qed.

(** The segments of a resolved path are proper ones. *)
Lemma resolve_segments (dir : list string) (p : string) :
  Forall (fun s => isSegment s = true) dir ->
  Forall (fun s => isSegment s = true) (Path.resolve dir p).
Proof.
  intros Hdir. unfold Path.resolve.
  assert (Hstart : Forall (fun s => isSegment s = true)
                     (if Path.isAbsolute p then Path.root else dir))
    by (destruct (Path.isAbsolute p); [constructor|done]).
  revert Hstart. generalize (if Path.isAbsolute p then Path.root else dir).
  pose proof (split_segments "/" p) as Hsplit.
  induction Hsplit as [|seg l Hseg _ IH]; intros acc Hacc; [done|]. simpl.
  apply IH. by apply step_keeps_segments.
Qed.

Lemma join_snoc (sep : string) (l : list string) (x : string) :
  l <> [] -> join sep (l ++ [x]) = join sep l +:+ sep +:+ x.
Proof.
  induction l as [|y l IH]; [done|]. intros _.
  destruct l as [|z l]; [done|].
  change ((y :: z :: l) ++ [x]) with (y :: (z :: l) ++ [x]).
  change (join sep (y :: (z :: l) ++ [x]))
    with (y +:+ sep +:+ join sep ((z :: l) ++ [x])).
  rewrite IH by done. rewrite join_cons2. by rewrite !str_app_assoc.
Qed.

(** The file system finds the child [name] of the directory [d] under
    the text of [d] joined with [name]. *)
Lemma resolve_render_child (dir d : list string) (name : string) :
  Forall (fun s => isSegment s = true) d -> isSegment name = true ->
  Path.resolve dir (Path.join (Path.render d) name) = Path.child d name.
Proof.
  intros Hd Hname. pose proof Hname as (Hn1 & _ & _ & Hn4)%isSegment_spec.
  unfold Path.join, Path.render.
  rewrite (bool_decide_eq_false_2 (_ = "")) by done.
  rewrite (bool_decide_eq_false_2 (name = "")) by done.
  unfold Path.resolve, Path.child.
  change (Path.isAbsolute (("/" +:+ join "/" d) +:+ "/" +:+ name)) with true. cbv iota.
  rewrite str_app_assoc.
  change (split "/" ("/" +:+ join "/" d +:+ "/" +:+ name))
    with ("" :: split "/" (join "/" d +:+ "/" +:+ name)).
  cbn [fold_left]. change (Path.step Path.root "") with Path.root.
  destruct (decide (d = [])) as [->|Hne].
  - change (split "/" (join "/" [] +:+ "/" +:+ name)) with ("" :: split "/" name).
    rewrite split_no_sep by done. cbn [fold_left].
    change (Path.step Path.root "") with Path.root. by rewrite step_segment.
  - rewrite <- join_snoc by done. rewrite split_join.
    + rewrite fold_step_segments; [done|]. apply Forall_app. split; [done|]. by constructor.
    + by destruct d.
    + apply Forall_app. split; [|by constructor].
      eapply Forall_impl; [exact Hd|]. by intros s (_ & _ & _ & ?)%isSegment_spec.
Qed.

(** X20.  The two halves of the resolver fit together: in a process
    whose working directory is a normalised path, the text of the
    directory that [findWorkspaceRoot] returns leads
    [readPnpmWorkspaceYaml] to the very document that was found there;
    when that document parses, it is what is read, and
    [resolvePnpmCatalog] answers from it: the entry that the selected
    catalog has for the package, when it has one. *)
Theorem found_root_leads_to_its_document
    (builtinGet : string -> string -> Exception + option Resolved)
    (startPath : string) (w w' : World) (d : list string) :
  Forall (fun s => isSegment s = true) (cwd w) ->
  findWorkspaceRoot startPath w = (inr (Some d), w') ->
  workspaceDocumentPath w (Path.render d) = Path.child d "pnpm-workspace.yaml" /\
  is_Some (nodes w !! workspaceDocumentPath w (Path.render d)) /\
  forall yaml,
    nodes w !! Path.child d "pnpm-workspace.yaml" = Some (File (YamlText yaml)) ->
    readPnpmWorkspaceYaml (Path.render d) w = (inr (Some yaml), w) /\
    (forall packageName catalogName,
       resolvePnpmCatalog builtinGet packageName catalogName (Path.render d) w
       = (catalogEntry builtinGet yaml catalogName packageName, w)) /\
    (forall packageName catalogName range,
       selectedCatalog yaml catalogName ≫= (.!! packageName) = Some range ->
       resolvePnpmCatalog builtinGet packageName catalogName (Path.render d) w
       = (inr (Some (Range range)), w)).
Proof.
  intros Hcwd Hfound.
  destruct (proj1 (findWorkspaceRoot_nearest startPath w) d w' Hfound) as (Hpre & Hex & _).
  assert (Hd : Forall (fun s => isSegment s = true) d).
  { destruct Hpre as [k Hk]. pose proof (resolve_segments (cwd w) startPath Hcwd) as H.
    rewrite Hk in H. by apply Forall_app in H as [H _]. }
  assert (Hpath : workspaceDocumentPath w (Path.render d)
                  = Path.child d "pnpm-workspace.yaml")
    by (by apply resolve_render_child).
  split; [done|]. split; [by rewrite Hpath|].
  intros yaml Hyaml. split; [|split].
  - by rewrite readPnpmWorkspaceYaml_cases, Hpath, Hyaml.
  - intros packageName catalogName.
    by rewrite resolvePnpmCatalog_cases, Hpath, Hyaml.
  - intros packageName catalogName range Hown.
    by rewrite resolvePnpmCatalog_cases, Hpath, Hyaml, (catalogEntry_own _ _ _ _ _ Hown).
Qed.

Lemma found_root_leads_to_its_document_witness :
  resolvePnpmCatalog Scenario.builtins "zod" "default" (Path.render ["ws"])
    Scenario.catalogWorld
  = (inr (Some (Range "^3.22.0")), Scenario.catalogWorld).
Proof.
  destruct (found_root_leads_to_its_document Scenario.builtins "packages/app"
              Scenario.catalogWorld Scenario.catalogWorld ["ws"]) as (_ & _ & H).
  - repeat constructor.
  - vm_compute. reflexivity.
  - destruct (H Scenario.zodCatalog) as (_ & _ & Hown); [vm_compute; reflexivity|].
    apply (Hown "zod" "default" "^3.22.0"). reflexivity.
Defined.
